(** * generate_tetrahedron.py: substituent placement around a functionalised bond

    A shallow embedding of [src/generate_tetrahedron.py] (class [Complex]) and
    the properties of its geometry and of the file it writes.

    Numbers.  The program computes with numpy's float64.  There are two
    embeddings of the arithmetic.

    - The first keeps the IEEE special values (the infinities and NaN) and
      the way they are produced and propagated, and computes finite values
      exactly, on the real line: rounding, overflow and underflow are left
      out, and the two zeros are one (a zero divisor counts as +0, which is
      the sign of every zero divisor the program can produce: a norm, or
      [1 + c] with [c = -1]).  Statements about special values, about the
      state of the object and about the file are made of this embedding.
      The laws of the geometry are proved of it as well, where they hold
      with no error; they are stated for inputs in a range, away from the
      singular direction, and up to a tolerance of [1e-9] bond lengths, so
      that the rounding of binary64 does not contradict them.  That the
      rounded results stay within the tolerance is checked at sample
      inputs, not proved.

    - The second, [Binary64], is the same code on the kernel's binary64
      numbers, every operation rounded.  It runs, and it is used for what
      the code returns on a given input: where an exact law fails by
      rounding, and that the laws hold within the tolerance at sample
      inputs.

    State.  A [Complex] object is a record; the methods that assign to
    [self] return the new record next to their result.

    Files.  The output file is first the text it decodes to, then, for a
    file that was there before the call, what the locale codec makes of
    its bytes. *)

From Stdlib Require Import Floats.
From Stdlib Require Import Reals Lra Psatz RNsatz List String Ascii Bool Arith Lia.
Import ListNotations.

Open Scope R_scope.

(** ** Numbers: float64 with exact finite arithmetic *)

Inductive float64 : Type :=
| Fin (r : R)
| PInf
| NInf
| NaN.

Module F64.



Definition neg (a : float64) : float64 :=
  match a with
  | Fin r => Fin (- r)
  | PInf => NInf
  | NInf => PInf
  | NaN => NaN
  end.

Definition add (a b : float64) : float64 :=
  match a, b with
  | NaN, _ | _, NaN => NaN
  | Fin x, Fin y => Fin (x + y)
  | PInf, NInf | NInf, PInf => NaN
  | PInf, _ | _, PInf => PInf
  | NInf, _ | _, NInf => NInf
  end.

Definition sub (a b : float64) : float64 := add a (neg b).

(** The infinity whose sign is the sign of [r]; [inf * 0] is NaN. *)
Definition signed_inf (positive : bool) (r : R) : float64 :=
  if Req_EM_T r 0 then NaN
  else if Rlt_dec 0 r then (if positive then PInf else NInf)
  else (if positive then NInf else PInf).

Definition mul (a b : float64) : float64 :=
  match a, b with
  | NaN, _ | _, NaN => NaN
  | Fin x, Fin y => Fin (x * y)
  | Fin x, PInf | PInf, Fin x => signed_inf true x
  | Fin x, NInf | NInf, Fin x => signed_inf false x
  | PInf, PInf | NInf, NInf => PInf
  | PInf, NInf | NInf, PInf => NInf
  end.

(** numpy division: a zero divisor gives NaN for [0/0] and an infinity
    otherwise, with a warning and no exception. *)
Definition div (a b : float64) : float64 :=
  match a, b with
  | NaN, _ | _, NaN => NaN
  | Fin x, Fin y =>
      if Req_EM_T y 0 then
        (if Req_EM_T x 0 then NaN else if Rlt_dec 0 x then PInf else NInf)
      else Fin (x / y)
  | Fin _, (PInf | NInf) => Fin 0
  | PInf, Fin y => if Rlt_dec y 0 then NInf else PInf
  | NInf, Fin y => if Rlt_dec y 0 then PInf else NInf
  | (PInf | NInf), (PInf | NInf) => NaN
  end.

(** [np.sqrt]: NaN on a negative argument. *)
Definition sqrt (a : float64) : float64 :=
  match a with
  | Fin x => if Rlt_dec x 0 then NaN else Fin (R_sqrt.sqrt x)
  | PInf => PInf
  | NInf => NaN
  | NaN => NaN
  end.

End F64.

Declare Scope f64_scope.
Delimit Scope f64_scope with f64.
Bind Scope f64_scope with float64.
Infix "+" := F64.add : f64_scope.
Infix "-" := F64.sub : f64_scope.
Infix "*" := F64.mul : f64_scope.
Infix "/" := F64.div : f64_scope.
Notation "- a" := (F64.neg a) : f64_scope.

(** ** Arrays of shape (3,) and (3,3) *)

Record vec3 : Type := Vec3 { v0 : float64; v1 : float64; v2 : float64 }.

Record mat3 : Type := Mat3 { r0 : vec3; r1 : vec3; r2 : vec3 }.

Definition vmap (f : float64 -> float64) (a : vec3) : vec3 :=
  Vec3 (f (v0 a)) (f (v1 a)) (f (v2 a)).

Definition vzip (f : float64 -> float64 -> float64) (a b : vec3) : vec3 :=
  Vec3 (f (v0 a) (v0 b)) (f (v1 a) (v1 b)) (f (v2 a) (v2 b)).

Definition vadd : vec3 -> vec3 -> vec3 := vzip F64.add.
Definition vsub : vec3 -> vec3 -> vec3 := vzip F64.sub.
Definition vneg : vec3 -> vec3 := vmap F64.neg.

(** [s * a] and [a / s] for a scalar [s]. *)
Definition vscale (s : float64) (a : vec3) : vec3 := vmap (F64.mul s) a.
Definition vdiv (a : vec3) (s : float64) : vec3 := vmap (fun x => x / s)%f64 a.

Definition mmap (f : float64 -> float64) (m : mat3) : mat3 :=
  Mat3 (vmap f (r0 m)) (vmap f (r1 m)) (vmap f (r2 m)).

Definition madd (a b : mat3) : mat3 :=
  Mat3 (vadd (r0 a) (r0 b)) (vadd (r1 a) (r1 b)) (vadd (r2 a) (r2 b)).

(** [s * m] and [m * s]: numpy broadcasts the scalar over the entries. *)
Definition mscale_l (s : float64) (m : mat3) : mat3 := mmap (F64.mul s) m.
Definition mscale_r (m : mat3) (s : float64) : mat3 := mmap (fun x => x * s)%f64 m.

(** [np.dot] of two vectors, of a matrix and a vector, of two matrices. *)
Definition dot (a b : vec3) : float64 :=
  (v0 a * v0 b + v1 a * v1 b + v2 a * v2 b)%f64.

Definition mdotv (m : mat3) (a : vec3) : vec3 :=
  Vec3 (dot (r0 m) a) (dot (r1 m) a) (dot (r2 m) a).

Definition col0 (m : mat3) : vec3 := Vec3 (v0 (r0 m)) (v0 (r1 m)) (v0 (r2 m)).
Definition col1 (m : mat3) : vec3 := Vec3 (v1 (r0 m)) (v1 (r1 m)) (v1 (r2 m)).
Definition col2 (m : mat3) : vec3 := Vec3 (v2 (r0 m)) (v2 (r1 m)) (v2 (r2 m)).

Definition mdot (a b : mat3) : mat3 :=
  Mat3 (Vec3 (dot (r0 a) (col0 b)) (dot (r0 a) (col1 b)) (dot (r0 a) (col2 b)))
       (Vec3 (dot (r1 a) (col0 b)) (dot (r1 a) (col1 b)) (dot (r1 a) (col2 b)))
       (Vec3 (dot (r2 a) (col0 b)) (dot (r2 a) (col1 b)) (dot (r2 a) (col2 b))).

(** [np.cross]. *)
Definition cross (a b : vec3) : vec3 :=
  Vec3 (v1 a * v2 b - v2 a * v1 b)%f64
       (v2 a * v0 b - v0 a * v2 b)%f64
       (v0 a * v1 b - v1 a * v0 b)%f64.

(** [np.linalg.norm] of a vector. *)
Definition norm (a : vec3) : float64 := F64.sqrt (dot a a).

Definition eye3 : mat3 :=
  Mat3 (Vec3 (Fin 1) (Fin 0) (Fin 0))
       (Vec3 (Fin 0) (Fin 1) (Fin 0))
       (Vec3 (Fin 0) (Fin 0) (Fin 1)).

Definition zeros3 : vec3 := Vec3 (Fin 0) (Fin 0) (Fin 0).

(** A point with finite coordinates. *)
Definition fin3 (x y z : R) : vec3 := Vec3 (Fin x) (Fin y) (Fin z).


(** ** The class [Complex] *)

(** Python exceptions the modelled code can raise. *)
Inductive exn : Type :=
| KeyError            (* [data_matrix.loc] on a row that is not there *)
| IndexError          (* list index out of range *)
| FileNotFoundError   (* [open] for reading on a file that is not there *)
| UnicodeDecodeError. (* reading, in text mode, bytes the locale codec rejects *)

Inductive result (A : Type) : Type :=
| Ok (a : A)
| Raise (e : exn).
Arguments Ok {A} a.
Arguments Raise {A} e.

Definition bind {A B} (m : result A) (k : A -> result B) : result B :=
  match m with
  | Ok a => k a
  | Raise e => Raise e
  end.

Notation "x <- m ;; k" := (bind m (fun x => k))
  (at level 61, m at next level, right associativity).

(** A row of [data_matrix]: the columns 'atom', 'x', 'y', 'z'. *)
Record atom_row : Type := AtomRow {
  atom : string;
  xyz : vec3
}.

(** [data_matrix.loc[i, ...]]: the rows are labelled 0, 1, ... *)
Definition loc (data_matrix : list atom_row) (i : nat) : result atom_row :=
  match nth_error data_matrix i with
  | Some r => Ok r
  | None => Raise KeyError
  end.

Record Complex : Type := MkComplex {
  data_matrix : list atom_row;
  atom_to_be_functionalized_index : nat;
  atom_to_be_functionalized_xyz : vec3;
  bonded_atom_index : nat;
  bonded_atom_xyz : vec3;
  bond_length : vec3;
  bond_length_norm : vec3;
  equilateral_triangle : mat3
}.

(** The template assigned in [__init__]; the literals [0.5] and [3.0] are
    the reals 1/2 and 3. *)
Definition template : mat3 :=
  Mat3 (Vec3 (Fin 0) (Fin 1 / F64.sqrt (Fin 3)) (Fin 0))
       (Vec3 (Fin (- (1 / 2))) (Fin (- (1 / 2)) / F64.sqrt (Fin 3)) (Fin 0))
       (Vec3 (Fin (1 / 2)) (Fin (- (1 / 2)) / F64.sqrt (Fin 3)) (Fin 0)).

(** [Complex.__init__], from the table [pd.read_table] has parsed. *)
Definition init (table : list atom_row) : result Complex :=
  a <- loc table 0 ;;
  b <- loc table 1 ;;
  let bl := vsub (xyz a) (xyz b) in
  Ok {| data_matrix := table;
        atom_to_be_functionalized_index := 0;
        atom_to_be_functionalized_xyz := xyz a;
        bonded_atom_index := 1;
        bonded_atom_xyz := xyz b;
        bond_length := bl;
        bond_length_norm := vdiv bl (norm bl);
        equilateral_triangle := template |}.

(** [Complex.distance]. *)
Definition distance (a b : vec3) : float64 :=
  let d := vsub a b in
  F64.sqrt (v0 d * v0 d + v1 d * v1 d + v2 d * v2 d)%f64.

Definition set_equilateral_triangle (self : Complex) (m : mat3) : Complex :=
  {| data_matrix := data_matrix self;
     atom_to_be_functionalized_index := atom_to_be_functionalized_index self;
     atom_to_be_functionalized_xyz := atom_to_be_functionalized_xyz self;
     bonded_atom_index := bonded_atom_index self;
     bonded_atom_xyz := bonded_atom_xyz self;
     bond_length := bond_length self;
     bond_length_norm := bond_length_norm self;
     equilateral_triangle := m |}.

(** The value [b] has after its second assignment in [find_centroid]. *)
Definition scaled_bond (self : Complex) : float64 :=
  let b := distance (atom_to_be_functionalized_xyz self) (bonded_atom_xyz self) in
  (b * (Fin 2 * F64.sqrt (Fin 2 / Fin 3)))%f64.

(** [Complex.find_centroid]: the centroid, and [self] after the assignment
    to [self.equilateral_triangle]. *)
Definition find_centroid (self : Complex) : vec3 * Complex :=
  let b := scaled_bond self in
  let self' := set_equilateral_triangle self (mscale_l b (equilateral_triangle self)) in
  let centroid :=
    vadd (atom_to_be_functionalized_xyz self')
         (vscale (b / Fin 3)%f64 (bond_length_norm self')) in
  (centroid, self').

(** The matrix [rotation_matrix] of [generate_substituent_vectors]. *)
Definition rotation_matrix (bond_length_norm : vec3) : mat3 :=
  let normal_vector := Vec3 (Fin 0) (Fin 0) (Fin 1) in
  let normal_vector := vdiv normal_vector (norm normal_vector) in
  let v := cross normal_vector bond_length_norm in
  let v_x := Mat3 (Vec3 (Fin 0) (- v2 v)%f64 (v1 v))
                  (Vec3 (v2 v) (Fin 0) (- v0 v)%f64)
                  (Vec3 (- v1 v)%f64 (v0 v) (Fin 0)) in
  let v_xsq := mdot v_x v_x in
  let c := dot bond_length_norm normal_vector in
  madd (madd eye3 v_x) (mscale_r v_xsq (Fin 1 / (Fin 1 + c))%f64).

(** [Complex.generate_substituent_vectors]. *)
Definition generate_substituent_vectors (self : Complex)
  : (vec3 * vec3 * vec3) * Complex :=
  let '(centroid, self) := find_centroid self in
  let v1 := r0 (equilateral_triangle self) in
  let v2 := r1 (equilateral_triangle self) in
  let v3 := r2 (equilateral_triangle self) in
  let starting_coordinate := zeros3 in
  let rotation_matrix := rotation_matrix (bond_length_norm self) in
  let substituent_1_vector := mdotv rotation_matrix v1 in
  let substituent_2_vector := mdotv rotation_matrix v2 in
  let substituent_3_vector := mdotv rotation_matrix v3 in
  let substituent_1_vector :=
    vadd (vneg (vsub starting_coordinate centroid)) substituent_1_vector in
  let substituent_2_vector :=
    vadd (vneg (vsub starting_coordinate centroid)) substituent_2_vector in
  let substituent_3_vector :=
    vadd (vneg (vsub starting_coordinate centroid)) substituent_3_vector in
  ((substituent_1_vector, substituent_2_vector, substituent_3_vector), self).

(** The flow of [__main__] up to the geometry: construct the object, ask for
    the substituents once. *)
Definition substituents (table : list atom_row) : result (vec3 * vec3 * vec3) :=
  self <- init table ;;
  Ok (fst (generate_substituent_vectors self)).

(** The attribute [bond_length_norm] of a freshly constructed object. *)
Definition bond_length_norm_of (table : list atom_row) : result vec3 :=
  self <- init table ;;
  Ok (bond_length_norm self).

Definition centroid_of (table : list atom_row) : result vec3 :=
  self <- init table ;;
  Ok (fst (find_centroid self)).

(** A point with real coordinates, and the array that holds it. *)
Definition point : Type := (R * R * R)%type.

Definition fin (p : point) : vec3 :=
  let '(x, y, z) := p in fin3 x y z.

(** A table whose first two rows are the heavy atom at [h] and the bonded
    atom at [b], both with finite coordinates. *)
Definition two_atoms (la lb : string) (h b : point) (rest : list atom_row)
  : list atom_row :=
  AtomRow la (fin h) :: AtomRow lb (fin b) :: rest.

(** ** Finite arithmetic *)

Arguments F64.add : simpl never.
Arguments F64.sub : simpl never.
Arguments F64.mul : simpl never.
Arguments F64.div : simpl never.
Arguments F64.neg : simpl never.
Arguments F64.sqrt : simpl never.

Lemma add_fin (x y : R) : (Fin x + Fin y)%f64 = Fin (x + y).
Proof. reflexivity. Qed.

Lemma sub_fin (x y : R) : (Fin x - Fin y)%f64 = Fin (x - y).
Proof. reflexivity. Qed.

Lemma mul_fin (x y : R) : (Fin x * Fin y)%f64 = Fin (x * y).
Proof. reflexivity. Qed.

Lemma neg_fin (x : R) : (- Fin x)%f64 = Fin (- x).
Proof. reflexivity. Qed.


Create Rewrite HintDb fin.
#[local] Hint Rewrite add_fin sub_fin mul_fin neg_fin : fin.

Lemma div_fin (x y : R) : y <> 0 -> (Fin x / Fin y)%f64 = Fin (x / y).
Proof.
  intros Hy. unfold F64.div. destruct (Req_EM_T y 0) as [E | _]; [contradiction | reflexivity].
Qed.

Lemma div_zero_zero : (Fin 0 / Fin 0)%f64 = NaN.
Proof.
  unfold F64.div. destruct (Req_EM_T 0 0) as [_ | N]; [reflexivity | now elim N].
Qed.



Lemma sqrt_fin (x : R) : 0 <= x -> F64.sqrt (Fin x) = Fin (sqrt x).
Proof.
  intros Hx. unfold F64.sqrt. destruct (Rlt_dec x 0) as [N | _]; [lra | reflexivity].
Qed.

Lemma sum_sq_nonneg (x y z : R) : 0 <= x * x + y * y + z * z.
Proof. nra. Qed.

Lemma sum_sq_pos (x y z : R) :
  (x, y, z) <> (0, 0, 0) -> 0 < x * x + y * y + z * z.
Proof.
  intros H.
  destruct (Req_dec x 0) as [Ex | Nx]; [| nra].
  destruct (Req_dec y 0) as [Ey | Ny]; [| nra].
  destruct (Req_dec z 0) as [Ez | Nz]; [| nra].
  subst. now elim H.
Qed.

(** The real bond length of two points. *)
Definition Rdist (h b : point) : R :=
  let '(hx, hy, hz) := h in
  let '(bx, by_, bz) := b in
  sqrt ((hx - bx) * (hx - bx) + (hy - by_) * (hy - by_) + (hz - bz) * (hz - bz)).

Lemma Rdist_pos (h b : point) : h <> b -> 0 < Rdist h b.
Proof.
  destruct h as [[hx hy] hz], b as [[bx by_] bz]. intros Hne. unfold Rdist.
  apply sqrt_lt_R0, sum_sq_pos. intros E. apply Hne.
  injection E as E1 E2 E3. f_equal; [f_equal |]; lra.
Qed.

Lemma Rdist_sq (h b : point) :
  Rdist h b * Rdist h b =
  (fst (fst h) - fst (fst b)) * (fst (fst h) - fst (fst b))
  + (snd (fst h) - snd (fst b)) * (snd (fst h) - snd (fst b))
  + (snd h - snd b) * (snd h - snd b).
Proof.
  destruct h as [[hx hy] hz], b as [[bx by_] bz]. cbn.
  apply sqrt_sqrt, sum_sq_nonneg.
Qed.

(** [Complex.distance] on finite points is the real distance. *)
Lemma distance_fin (h b : point) : distance (fin h) (fin b) = Fin (Rdist h b).
Proof.
  destruct h as [[hx hy] hz], b as [[bx by_] bz].
  unfold distance, Rdist. simpl. autorewrite with fin.
  now rewrite sqrt_fin by apply sum_sq_nonneg.
Qed.

(** ** Real geometry behind the finite case *)

Definition Radd (p q : point) : point :=
  let '(px, py, pz) := p in let '(qx, qy, qz) := q in (px + qx, py + qy, pz + qz).

Definition Rscale (k : R) (p : point) : point :=
  let '(px, py, pz) := p in (k * px, k * py, k * pz).

(** The unit vector from [b] toward [h]. *)
Definition Runit (h b : point) : point :=
  let '(hx, hy, hz) := h in
  let '(bx, by_, bz) := b in
  ((hx - bx) / Rdist h b, (hy - by_) / Rdist h b, (hz - bz) / Rdist h b).

(** The bond from [b] to [h] points along [[0,0,-1]]. *)
Definition antiparallel (h b : point) : Prop :=
  let '(hx, hy, hz) := h in
  let '(bx, by_, bz) := b in
  hx = bx /\ hy = by_ /\ hz < bz.

(** [I + K + K^2 / (1 + uz)] applied to [w], for [K] the cross-product
    matrix of [[0,0,1] x u]. *)
Definition Rrot (u w : point) : point :=
  let '(ux, uy, uz) := u in
  let '(x, y, z) := w in
  let s := ux * x + uy * y in
  (x + ux * z - ux * s * / (1 + uz),
   y + uy * z - uy * s * / (1 + uz),
   z - s - (ux * ux + uy * uy) * z * / (1 + uz)).

(** The rows of the template, as real points. *)
Definition Rtemplate : point * point * point :=
  ((0, 1 / sqrt 3, 0),
   (- (1 / 2), - (1 / 2) / sqrt 3, 0),
   (1 / 2, - (1 / 2) / sqrt 3, 0)).

Definition fin_rows (t : point * point * point) : mat3 :=
  let '(a, b, c) := t in Mat3 (fin a) (fin b) (fin c).

Definition Rscale_rows (k : R) (t : point * point * point) : point * point * point :=
  let '(a, b, c) := t in (Rscale k a, Rscale k b, Rscale k c).

(** The factor of the second assignment to [b] in [find_centroid]. *)
Definition kappa : R := 2 * sqrt (2 / 3).

Lemma sqrt3_neq_0 : sqrt 3 <> 0.
Proof. pose proof Rlt_sqrt3_0. lra. Qed.

Lemma template_fin : template = fin_rows Rtemplate.
Proof.
  unfold template, fin_rows, Rtemplate, fin, fin3.
  rewrite sqrt_fin by lra. rewrite !div_fin by apply sqrt3_neq_0. reflexivity.
Qed.

Lemma init_two_atoms la lb h b rest :
  init (two_atoms la lb h b rest) =
  Ok {| data_matrix := two_atoms la lb h b rest;
        atom_to_be_functionalized_index := 0;
        atom_to_be_functionalized_xyz := fin h;
        bonded_atom_index := 1;
        bonded_atom_xyz := fin b;
        bond_length := vsub (fin h) (fin b);
        bond_length_norm := vdiv (vsub (fin h) (fin b)) (Fin (Rdist h b));
        equilateral_triangle := template |}.
Proof.
  unfold init, two_atoms. cbn [loc nth_error bind xyz].
  do 3 f_equal.
  destruct h as [[hx hy] hz], b as [[bx by_] bz].
  unfold norm, dot, Rdist. simpl. autorewrite with fin.
  now rewrite sqrt_fin by apply sum_sq_nonneg.
Qed.

Lemma bond_length_norm_fin h b :
  h <> b ->
  vdiv (vsub (fin h) (fin b)) (Fin (Rdist h b)) = fin (Runit h b).
Proof.
  intros Hne. pose proof (Rdist_pos h b Hne) as Hpos.
  destruct h as [[hx hy] hz], b as [[bx by_] bz].
  unfold vdiv, vsub, vzip, vmap, Runit, fin, fin3. cbn [v0 v1 v2].
  autorewrite with fin. rewrite !div_fin by lra. reflexivity.
Qed.

Lemma Runit_norm h b :
  h <> b ->
  let '(ux, uy, uz) := Runit h b in ux * ux + uy * uy + uz * uz = 1.
Proof.
  intros Hne. pose proof (Rdist_pos h b Hne) as Hpos.
  pose proof (Rdist_sq h b) as Hsq.
  destruct h as [[hx hy] hz], b as [[bx by_] bz]. cbn [fst snd] in Hsq.
  unfold Runit. set (l := Rdist (hx, hy, hz) (bx, by_, bz)) in *.
  replace ((hx - bx) / l * ((hx - bx) / l) + (hy - by_) / l * ((hy - by_) / l)
           + (hz - bz) / l * ((hz - bz) / l))
    with (((hx - bx) * (hx - bx) + (hy - by_) * (hy - by_) + (hz - bz) * (hz - bz)) / (l * l))
    by (field; lra).
  rewrite <- Hsq. field. lra.
Qed.

(** [1 + c] vanishes exactly on the anti-parallel bonds. *)
Lemma Runit_z_antiparallel h b :
  h <> b ->
  (1 + snd (Runit h b) = 0 <-> antiparallel h b).
Proof.
  intros Hne. pose proof (Rdist_pos h b Hne) as Hpos.
  pose proof (Rdist_sq h b) as Hsq.
  destruct h as [[hx hy] hz], b as [[bx by_] bz]. cbn [fst snd] in Hsq.
  unfold Runit, antiparallel. cbn [snd].
  set (l := Rdist (hx, hy, hz) (bx, by_, bz)) in *.
  split.
  - intros H. assert (Hz : hz - bz = - l).
    { apply (Rmult_eq_reg_r (/ l)); [| apply Rinv_neq_0_compat; lra].
      unfold Rdiv in H. replace (- l * / l) with (-1) by (field; lra). lra. }
    assert (Hxy : (hx - bx) * (hx - bx) + (hy - by_) * (hy - by_) = 0) by nra.
    destruct (Rplus_sqr_eq_0 (hx - bx) (hy - by_)) as [Hx Hy];
      [unfold Rsqr; exact Hxy |].
    repeat split; lra.
  - intros (Hx & Hy & Hz). subst hx hy.
    assert (Hl : l = bz - hz).
    { assert (E : l * l = (bz - hz) * (bz - hz)) by (rewrite Hsq; ring). nra. }
    rewrite Hl. field. lra.
Qed.

Lemma sqrt_two_thirds_pos : 0 < sqrt (2 / 3).
Proof. apply sqrt_lt_R0. lra. Qed.

Lemma kappa_pos : 0 < kappa.
Proof. unfold kappa. pose proof sqrt_two_thirds_pos. lra. Qed.

Lemma kappa_sq : kappa * kappa = 8 / 3.
Proof.
  unfold kappa.
  replace (2 * sqrt (2 / 3) * (2 * sqrt (2 / 3)))
    with (4 * (sqrt (2 / 3) * sqrt (2 / 3))) by ring.
  rewrite sqrt_sqrt by lra. lra.
Qed.

Lemma dot_fin a b c x y z :
  dot (fin3 a b c) (fin3 x y z) = Fin (a * x + b * y + c * z).
Proof. reflexivity. Qed.

Lemma cross_fin a b c x y z :
  cross (fin3 a b c) (fin3 x y z) = fin3 (b * z - c * y) (c * x - a * z) (a * y - b * x).
Proof. reflexivity. Qed.

Lemma vsub_fin a b c x y z :
  vsub (fin3 a b c) (fin3 x y z) = fin3 (a - x) (b - y) (c - z).
Proof. reflexivity. Qed.

Lemma vdiv_fin a b c k :
  k <> 0 -> vdiv (fin3 a b c) (Fin k) = fin3 (a / k) (b / k) (c / k).
Proof. intros Hk. unfold vdiv, vmap, fin3. cbn [v0 v1 v2]. now rewrite !div_fin by exact Hk. Qed.

Lemma normal_vector_fin :
  vdiv (fin3 0 0 1) (norm (fin3 0 0 1)) = fin3 0 0 1.
Proof.
  unfold norm. rewrite dot_fin.
  replace (0 * 0 + 0 * 0 + 1 * 1) with 1 by ring.
  rewrite sqrt_fin by lra. rewrite sqrt_1, vdiv_fin by lra.
  unfold fin3. f_equal; f_equal; field.
Qed.

(** The rotation matrix away from the singularity, entry by entry. *)
Definition Rrotation_matrix (u : point) : point * point * point :=
  let '(ux, uy, uz) := u in
  let e := / (1 + uz) in
  ((1 - ux * ux * e, - (ux * uy) * e, ux),
   (- (ux * uy) * e, 1 - uy * uy * e, uy),
   (- ux, - uy, 1 - (ux * ux + uy * uy) * e)).

Lemma rotation_matrix_fin (u : point) :
  1 + snd u <> 0 ->
  rotation_matrix (fin u) = fin_rows (Rrotation_matrix u).
Proof.
  destruct u as [[ux uy] uz]. cbn [snd]. intros Hc.
  unfold rotation_matrix. change (Vec3 (Fin 0) (Fin 0) (Fin 1)) with (fin3 0 0 1).
  rewrite normal_vector_fin. change (fin (ux, uy, uz)) with (fin3 ux uy uz).
  rewrite cross_fin, dot_fin. cbn [v0 v1 v2 fin3]. rewrite !neg_fin.
  rewrite add_fin. rewrite div_fin by (intros E; apply Hc; rewrite <- E; ring).
  unfold mdot, col0, col1, col2. cbn [r0 r1 r2 v0 v1 v2].
  unfold dot. cbn [v0 v1 v2]. rewrite !mul_fin, !add_fin.
  unfold mscale_r, mmap, vmap, madd, vadd, vzip, eye3. cbn [r0 r1 r2 v0 v1 v2].
  rewrite !mul_fin, !add_fin.
  unfold Rrotation_matrix, fin_rows, fin, fin3.
  f_equal; f_equal; f_equal; field; exact Hc.
Qed.

(** The rotation of [generate_substituent_vectors], away from the
    singularity, is finite and is [Rrot]. *)
Lemma rotation_fin (u w : point) :
  1 + snd u <> 0 ->
  mdotv (rotation_matrix (fin u)) (fin w) = fin (Rrot u w).
Proof.
  intros Hc. rewrite rotation_matrix_fin by exact Hc.
  destruct u as [[ux uy] uz], w as [[x y] z]. cbn [snd] in Hc.
  unfold Rrotation_matrix, fin_rows, mdotv, fin. cbn [r0 r1 r2].
  rewrite !dot_fin. unfold Rrot, fin3.
  f_equal; f_equal; field; exact Hc.
Qed.

(** Where [find_centroid] puts the centroid, for the unit vector [u]. *)
Definition Rcentroid (h b u : point) : point :=
  Radd h (Rscale (Rdist h b * kappa / 3) u).

Section FiniteObject.

Variables (h b u : point) (T : point * point * point) (self : Complex).
Hypothesis Hatom : atom_to_be_functionalized_xyz self = fin h.
Hypothesis Hbonded : bonded_atom_xyz self = fin b.
Hypothesis Hunit : bond_length_norm self = fin u.
Hypothesis Htri : equilateral_triangle self = fin_rows T.

Lemma scaled_bond_fin : scaled_bond self = Fin (Rdist h b * kappa).
Proof.
  unfold scaled_bond. rewrite Hatom, Hbonded, distance_fin.
  rewrite div_fin by lra. rewrite sqrt_fin by lra. now autorewrite with fin.
Qed.

Lemma find_centroid_fin :
  find_centroid self =
  (fin (Rcentroid h b u),
   set_equilateral_triangle self (fin_rows (Rscale_rows (Rdist h b * kappa) T))).
Proof.
  unfold find_centroid. rewrite scaled_bond_fin.
  cbn [set_equilateral_triangle atom_to_be_functionalized_xyz bond_length_norm].
  rewrite Hatom, Hunit, Htri. rewrite div_fin by lra.
  destruct h as [[hx hy] hz], u as [[ux uy] uz], T as [[[[a0 a1] a2] [[b0 b1] b2]] [[c0 c1] c2]].
  reflexivity.
Qed.

Lemma generate_substituent_vectors_fin :
  1 + snd u <> 0 ->
  let '(w1, w2, w3) := Rscale_rows (Rdist h b * kappa) T in
  generate_substituent_vectors self =
  ((fin (Radd (Rcentroid h b u) (Rrot u w1)),
    fin (Radd (Rcentroid h b u) (Rrot u w2)),
    fin (Radd (Rcentroid h b u) (Rrot u w3))),
   set_equilateral_triangle self (fin_rows (Rscale_rows (Rdist h b * kappa) T))).
Proof.
  intros Hc. unfold generate_substituent_vectors. rewrite find_centroid_fin.
  cbn [set_equilateral_triangle equilateral_triangle bond_length_norm].
  rewrite Hunit.
  destruct (Rscale_rows (Rdist h b * kappa) T) as [[w1 w2] w3].
  cbn [fin_rows r0 r1 r2]. rewrite !rotation_fin by exact Hc.
  assert (Htr : forall c w, vadd (vneg (vsub zeros3 (fin c))) (fin w) = fin (Radd c w)).
  { intros [[cx cy] cz] [[wx wy] wz]. unfold vadd, vneg, vsub, vzip, vmap, zeros3, fin, fin3, Radd.
    cbn [v0 v1 v2]. autorewrite with fin. f_equal; f_equal; ring. }
  now rewrite !Htr.
Qed.

End FiniteObject.

(** ** The rotation is an isometry that sends the template plane to the
    plane through the centroid orthogonal to the bond *)

Definition Rsqdist (p q : point) : R :=
  let '(px, py, pz) := p in
  let '(qx, qy, qz) := q in
  (px - qx) * (px - qx) + (py - qy) * (py - qy) + (pz - qz) * (pz - qz).

Definition Rsqnorm (p : point) : R :=
  let '(px, py, pz) := p in px * px + py * py + pz * pz.

Definition is_unit (u : point) : Prop := Rsqnorm u = 1.

Lemma Rdist_sqrt p q : Rdist p q = sqrt (Rsqdist p q).
Proof. destruct p as [[px py] pz], q as [[qx qy] qz]. reflexivity. Qed.

Lemma Rdist_of_square p q d : 0 <= d -> Rsqdist p q = d * d -> Rdist p q = d.
Proof. intros Hd E. rewrite Rdist_sqrt, E. now apply sqrt_square. Qed.

Lemma Runit_is_unit h b : h <> b -> is_unit (Runit h b).
Proof.
  intros Hne. pose proof (Runit_norm h b Hne) as H.
  unfold is_unit, Rsqnorm. now destruct (Runit h b) as [[ux uy] uz].
Qed.

Lemma Rrot_pair_sqdist (u c w1 w2 : point) :
  is_unit u -> 1 + snd u <> 0 ->
  Rsqdist (Radd c (Rrot u w1)) (Radd c (Rrot u w2)) = Rsqdist w1 w2.
Proof.
  destruct u as [[ux uy] uz], c as [[cx cy] cz], w1 as [[x1 y1] z1], w2 as [[x2 y2] z2].
  unfold is_unit, Rsqnorm, Rsqdist, Radd, Rrot. cbn [snd]. intros Hu Hc.
  assert (He : / (1 + uz) * (1 + uz) = 1) by (field; exact Hc).
  set (e := / (1 + uz)) in *. clearbody e. nsatz.
Qed.




(** The template scaled by [m]: an equilateral triangle of edge [m] in the
    plane [z = 0], centred at the origin, circumradius [m / sqrt 3]. *)
Section ScaledTemplate.

Variable m : R.

Let w1 : point := fst (fst (Rscale_rows m Rtemplate)).
Let w2 : point := snd (fst (Rscale_rows m Rtemplate)).
Let w3 : point := snd (Rscale_rows m Rtemplate).

Lemma sqrt3_inv_sq : / sqrt 3 * / sqrt 3 = 1 / 3.
Proof.
  rewrite <- Rinv_mult. rewrite sqrt_sqrt by lra. lra.
Qed.





End ScaledTemplate.

(** ** The first call on a fresh object, in closed form *)





(** ** Regularity of the generated triangle *)

Lemma Rdist_unit_z : Rdist (0, 0, 1) (0, 0, 0) = 1.
Proof. apply Rdist_of_square; [lra | unfold Rsqdist; ring]. Qed.

Lemma kappa_neq_1 : kappa <> 1.
Proof. intros E. pose proof kappa_sq as H. rewrite E in H. lra. Qed.


(** ** The centroid *)


(** ** The two singular inputs: no exception, NaN results *)

Definition nan3 : vec3 := Vec3 NaN NaN NaN.

Lemma add_nan_r (a : float64) : (a + NaN)%f64 = NaN.
Proof. now destruct a. Qed.


Lemma mdotv_nan (a : vec3) : mdotv (Mat3 nan3 nan3 nan3) a = nan3.
Proof. reflexivity. Qed.

Lemma vadd_nan3_r (a : vec3) : vadd a nan3 = nan3.
Proof.
  unfold vadd, vzip, nan3. cbn [v0 v1 v2]. now rewrite !add_nan_r.
Qed.







Lemma bond_length_norm_coincident h :
  vdiv (vsub (fin h) (fin h)) (Fin (Rdist h h)) = nan3.
Proof.
  assert (Hd : Rdist h h = 0).
  { apply Rdist_of_square; [lra |]. destruct h as [[hx hy] hz]. unfold Rsqdist. ring. }
  rewrite Hd. destruct h as [[hx hy] hz]. unfold fin. rewrite vsub_fin.
  unfold vdiv, vmap, fin3, nan3. cbn [v0 v1 v2].
  replace (hx - hx) with 0 by ring. replace (hy - hy) with 0 by ring.
  replace (hz - hz) with 0 by ring. now rewrite div_zero_zero.
Qed.

Lemma rotation_matrix_nan : rotation_matrix nan3 = Mat3 nan3 nan3 nan3.
Proof.
  unfold rotation_matrix. change (Vec3 (Fin 0) (Fin 0) (Fin 1)) with (fin3 0 0 1).
  rewrite normal_vector_fin. reflexivity.
Qed.

Lemma substituents_coincident la lb h rest :
  substituents (two_atoms la lb h h rest) = Ok (nan3, nan3, nan3).
Proof.
  unfold substituents. rewrite init_two_atoms. cbn [bind].
  rewrite bond_length_norm_coincident.
  unfold generate_substituent_vectors.
  destruct (find_centroid _) as [centroid self'] eqn:Hfc.
  unfold find_centroid in Hfc. injection Hfc as <- <-.
  cbn [set_equilateral_triangle bond_length_norm equilateral_triangle
       atom_to_be_functionalized_xyz].
  rewrite rotation_matrix_nan, !mdotv_nan, !vadd_nan3_r. reflexivity.
Qed.

(** C4 (as amended): when the heavy atom and the bonded atom coincide no
    exception is raised: the constructor returns an object whose normalised
    bond vector is NaN in every component ([0/0]), and
    [generate_substituent_vectors] returns three points that are NaN in
    every component. *)
Theorem coincident_atoms_give_nan la lb h rest :
  bond_length_norm_of (two_atoms la lb h h rest) = Ok nan3 /\
  substituents (two_atoms la lb h h rest) = Ok (nan3, nan3, nan3).
Proof.
  split.
  - unfold bond_length_norm_of. rewrite init_two_atoms. cbn [bind bond_length_norm].
    now rewrite bond_length_norm_coincident.
  - apply substituents_coincident.
Qed.

(** C4 (as stated) fails: with both atoms at (0,0,0) the constructor and
    the computation return; nothing is raised. *)
Lemma coincident_atoms_no_error :
  (exists self, init (two_atoms "C" "H" (0, 0, 0) (0, 0, 0) []) = Ok self) /\
  (exists r, substituents (two_atoms "C" "H" (0, 0, 0) (0, 0, 0) []) = Ok r) /\
  (forall e, substituents (two_atoms "C" "H" (0, 0, 0) (0, 0, 0) []) <> Raise e).
Proof.
  pose proof (substituents_coincident "C" "H" (0, 0, 0) []) as H.
  split; [| split].
  - rewrite init_two_atoms. eexists. reflexivity.
  - eexists. exact H.
  - intros e. rewrite H. discriminate.
Qed.

(** ** Repeated calls: the stored template is rescaled by every call *)

(** The substituents a call returns when the stored template is [T]. *)
Definition Rsubstituents_of (h b : point) (T : point * point * point)
  : point * point * point :=
  let '(w1, w2, w3) := Rscale_rows (Rdist h b * kappa) T in
  let c := Rcentroid h b (Runit h b) in
  let u := Runit h b in
  (Radd c (Rrot u w1), Radd c (Rrot u w2), Radd c (Rrot u w3)).

Definition fin_triple (s : point * point * point) : vec3 * vec3 * vec3 :=
  let '(s1, s2, s3) := s in (fin s1, fin s2, fin s3).

Lemma fin_inj (p q : point) : fin p = fin q -> p = q.
Proof.
  destruct p as [[px py] pz], q as [[qx qy] qz]. unfold fin, fin3.
  intros E. injection E as -> -> ->. reflexivity.
Qed.

Lemma Rsqdist_refl (p : point) : Rsqdist p p = 0.
Proof. destruct p as [[px py] pz]. unfold Rsqdist. ring. Qed.

(** What a call does to the object: only the template changes. *)
Lemma generate_substituent_vectors_state (self : Complex) :
  snd (generate_substituent_vectors self) =
  set_equilateral_triangle self (mscale_l (scaled_bond self) (equilateral_triangle self)).
Proof. reflexivity. Qed.

Lemma generate_substituent_vectors_template h b u T self :
  atom_to_be_functionalized_xyz self = fin h ->
  bonded_atom_xyz self = fin b ->
  bond_length_norm self = fin u ->
  equilateral_triangle self = fin_rows T ->
  u = Runit h b ->
  1 + snd u <> 0 ->
  generate_substituent_vectors self =
  (fin_triple (Rsubstituents_of h b T),
   set_equilateral_triangle self (fin_rows (Rscale_rows (Rdist h b * kappa) T))).
Proof.
  intros Ha Hb Hu Ht -> Hc.
  pose proof (generate_substituent_vectors_fin h b (Runit h b) T self Ha Hb Hu Ht Hc) as H.
  unfold Rsubstituents_of.
  destruct (Rscale_rows (Rdist h b * kappa) T) as [[w1 w2] w3]. exact H.
Qed.

(** Two consecutive calls on a fresh object. *)
Lemma two_calls_fin la lb h b rest :
  h <> b -> ~ antiparallel h b ->
  exists self self1 self2,
    init (two_atoms la lb h b rest) = Ok self /\
    generate_substituent_vectors self =
      (fin_triple (Rsubstituents_of h b Rtemplate), self1) /\
    generate_substituent_vectors self1 =
      (fin_triple (Rsubstituents_of h b (Rscale_rows (Rdist h b * kappa) Rtemplate)), self2) /\
    scaled_bond self = Fin (Rdist h b * kappa) /\
    equilateral_triangle self = fin_rows Rtemplate /\
    equilateral_triangle self1 = fin_rows (Rscale_rows (Rdist h b * kappa) Rtemplate).
Proof.
  intros Hne Hanti.
  assert (Hc : 1 + snd (Runit h b) <> 0).
  { intros E. now apply Hanti, Runit_z_antiparallel. }
  rewrite init_two_atoms, bond_length_norm_fin by exact Hne.
  eexists. eexists. eexists. split; [reflexivity |].
  split; [| split; [| split; [| split]]].
  - eapply generate_substituent_vectors_template;
      [reflexivity .. | apply template_fin | reflexivity | exact Hc].
  - eapply generate_substituent_vectors_template; [reflexivity .. | exact Hc].
  - eapply scaled_bond_fin; reflexivity.
  - apply template_fin.
  - reflexivity.
Qed.

Lemma first_row_moves (m : R) :
  Rsqdist (Rscale m (0, 1 / sqrt 3, 0)) (Rscale m (Rscale m (0, 1 / sqrt 3, 0))) = 0 ->
  0 < m -> m = 1.
Proof.
  intros E Hm. pose proof sqrt3_inv_sq as H3. unfold Rscale, Rsqdist, Rdiv in E.
  set (e := / sqrt 3) in *.
  assert (E' : (m - m * m) * (m - m * m) * (e * e) = 0) by (rewrite <- E; ring).
  rewrite H3 in E'.
  assert (Hz : (m - m * m) * (m - m * m) = 0) by lra.
  apply Rsqr_0_uniq in Hz. nra.
Qed.

Lemma Rscale_rows_one T : Rscale_rows 1 T = T.
Proof.
  destruct T as [[[[a0 a1] a2] [[b0 b1] b2]] [[c0 c1] c2]].
  unfold Rscale_rows, Rscale. repeat f_equal; ring.
Qed.

(** When do the first and the second call agree? *)
Lemma two_calls_agree h b :
  h <> b -> ~ antiparallel h b ->
  (fin_triple (Rsubstituents_of h b Rtemplate) =
   fin_triple (Rsubstituents_of h b (Rscale_rows (Rdist h b * kappa) Rtemplate))
   <-> Rdist h b * kappa = 1).
Proof.
  intros Hne Hanti.
  assert (Hc : 1 + snd (Runit h b) <> 0).
  { intros E. now apply Hanti, Runit_z_antiparallel. }
  pose proof (Runit_is_unit h b Hne) as Hu.
  pose proof (Rdist_pos h b Hne) as Hl. pose proof kappa_pos as Hk.
  set (m := Rdist h b * kappa). assert (Hm : 0 < m) by (unfold m; nra).
  split.
  - unfold Rsubstituents_of. fold m. unfold Rtemplate, Rscale_rows, fin_triple.
    intros E. apply (f_equal (fun t => fst (fst t))) in E. cbn [fst snd] in E.
    apply fin_inj in E. rename E into E'.
    apply first_row_moves; [| exact Hm].
    rewrite <- (Rrot_pair_sqdist (Runit h b) (Rcentroid h b (Runit h b))) by assumption.
    rewrite E'. apply Rsqdist_refl.
  - intros E. now rewrite E, Rscale_rows_one.
Qed.

(** C5 (as stated) fails: with the heavy atom at (0,0,1) and the bonded atom
    at (0,0,0), the second call on the same object returns other points than
    the first, and the first call has changed the stored template. *)
Lemma repeated_calls_differ :
  exists self r1 self1 r2 self2,
    init (two_atoms "C" "H" (0, 0, 1) (0, 0, 0) []) = Ok self /\
    generate_substituent_vectors self = (r1, self1) /\
    generate_substituent_vectors self1 = (r2, self2) /\
    r1 <> r2 /\
    equilateral_triangle self1 <> equilateral_triangle self.
Proof.
  assert (Hne : ((0, 0, 1) : point) <> (0, 0, 0)) by (intros E; injection E as E; lra).
  assert (Hanti : ~ antiparallel (0, 0, 1) (0, 0, 0))
    by (unfold antiparallel; intros (_ & _ & E); lra).
  destruct (two_calls_fin "C" "H" _ _ [] Hne Hanti)
    as (self & self1 & self2 & Hinit & H1 & H2 & Hsb & Ht & Ht1).
  assert (Hm : Rdist (0, 0, 1) (0, 0, 0) * kappa <> 1).
  { rewrite Rdist_unit_z, Rmult_1_l. apply kappa_neq_1. }
  do 5 eexists. split; [exact Hinit |]. split; [exact H1 |]. split; [exact H2 |].
  split.
  - intros E. now apply Hm, (two_calls_agree _ _ Hne Hanti).
  - rewrite Ht, Ht1, Rdist_unit_z, Rmult_1_l.
    unfold Rtemplate, Rscale_rows, Rscale, fin_rows, fin, fin3.
    intros E. injection E as _ _ _ E _.
    pose proof kappa_neq_1. lra.
Qed.

(** C5 (as amended): a call of [generate_substituent_vectors], on any
    object, leaves the atom table, the two indices, the two positions, the
    bond vector and its normalisation as they were, and replaces the stored
    template by its product with [b], the value [distance(heavy, bonded) *
    (2 * sqrt (2/3))] of [find_centroid]; that value is the same at the next
    call.  What a call returns is determined by the two positions, the
    normalised bond and the stored template: two objects that agree on
    these return the same points. *)
Theorem generate_substituent_vectors_frame (self other : Complex) :
  (data_matrix (snd (generate_substituent_vectors self)) = data_matrix self /\
   atom_to_be_functionalized_index (snd (generate_substituent_vectors self)) =
     atom_to_be_functionalized_index self /\
   atom_to_be_functionalized_xyz (snd (generate_substituent_vectors self)) =
     atom_to_be_functionalized_xyz self /\
   bonded_atom_index (snd (generate_substituent_vectors self)) = bonded_atom_index self /\
   bonded_atom_xyz (snd (generate_substituent_vectors self)) = bonded_atom_xyz self /\
   bond_length (snd (generate_substituent_vectors self)) = bond_length self /\
   bond_length_norm (snd (generate_substituent_vectors self)) = bond_length_norm self) /\
  equilateral_triangle (snd (generate_substituent_vectors self)) =
    mscale_l (scaled_bond self) (equilateral_triangle self) /\
  scaled_bond (snd (generate_substituent_vectors self)) = scaled_bond self /\
  (atom_to_be_functionalized_xyz other = atom_to_be_functionalized_xyz self ->
   bonded_atom_xyz other = bonded_atom_xyz self ->
   bond_length_norm other = bond_length_norm self ->
   equilateral_triangle other = equilateral_triangle self ->
   fst (generate_substituent_vectors other) = fst (generate_substituent_vectors self)).
Proof.
  rewrite generate_substituent_vectors_state.
  split; [repeat split |]. split; [reflexivity |]. split; [reflexivity |].
  intros Hh Hb Hu Ht.
  unfold generate_substituent_vectors, find_centroid, scaled_bond, set_equilateral_triangle.
  cbn [fst snd atom_to_be_functionalized_xyz bonded_atom_xyz bond_length_norm
       equilateral_triangle].
  now rewrite Hh, Hb, Hu, Ht.
Qed.

Lemma generate_substituent_vectors_frame_witness :
  exists self other,
    init (two_atoms "C" "H" (0, 0, 1) (0, 0, 0) []) = Ok self /\
    init (two_atoms "N" "H" (0, 0, 1) (0, 0, 0) [AtomRow "H" (fin (1, 1, 1))]) = Ok other /\
    fst (generate_substituent_vectors other) = fst (generate_substituent_vectors self).
Proof.
  do 2 eexists. split; [apply init_two_atoms |]. split; [apply init_two_atoms |].
  apply generate_substituent_vectors_frame; reflexivity.
Defined.

(** ** Translation *)








(** ** Rotation *)

















(** ** The same computation in binary64 *)

(** The methods again, on the kernel's binary64 numbers ([PrimFloat], IEEE
    754 with rounding to nearest even): every operation rounds as numpy's
    does, and [np.dot] is the sum of the products from left to right.  This
    embedding runs; it is used for what the code returns on a given
    input. *)
Module Binary64.

Local Open Scope float_scope.

Record vec3 : Type := Vec3 { v0 : float; v1 : float; v2 : float }.

Record mat3 : Type := Mat3 { r0 : vec3; r1 : vec3; r2 : vec3 }.

Definition vmap (f : float -> float) (a : vec3) : vec3 :=
  Vec3 (f (v0 a)) (f (v1 a)) (f (v2 a)).

Definition vzip (f : float -> float -> float) (a b : vec3) : vec3 :=
  Vec3 (f (v0 a) (v0 b)) (f (v1 a) (v1 b)) (f (v2 a) (v2 b)).

Definition vadd : vec3 -> vec3 -> vec3 := vzip PrimFloat.add.
Definition vsub : vec3 -> vec3 -> vec3 := vzip PrimFloat.sub.
Definition vneg : vec3 -> vec3 := vmap PrimFloat.opp.
Definition vscale (s : float) (a : vec3) : vec3 := vmap (PrimFloat.mul s) a.
Definition vdiv (a : vec3) (s : float) : vec3 := vmap (fun x => x / s) a.

Definition mmap (f : float -> float) (m : mat3) : mat3 :=
  Mat3 (vmap f (r0 m)) (vmap f (r1 m)) (vmap f (r2 m)).

Definition madd (a b : mat3) : mat3 :=
  Mat3 (vadd (r0 a) (r0 b)) (vadd (r1 a) (r1 b)) (vadd (r2 a) (r2 b)).

Definition mscale_l (s : float) (m : mat3) : mat3 := mmap (PrimFloat.mul s) m.
Definition mscale_r (m : mat3) (s : float) : mat3 := mmap (fun x => x * s) m.

Definition dot (a b : vec3) : float :=
  v0 a * v0 b + v1 a * v1 b + v2 a * v2 b.

Definition mdotv (m : mat3) (a : vec3) : vec3 :=
  Vec3 (dot (r0 m) a) (dot (r1 m) a) (dot (r2 m) a).

Definition col0 (m : mat3) : vec3 := Vec3 (v0 (r0 m)) (v0 (r1 m)) (v0 (r2 m)).
Definition col1 (m : mat3) : vec3 := Vec3 (v1 (r0 m)) (v1 (r1 m)) (v1 (r2 m)).
Definition col2 (m : mat3) : vec3 := Vec3 (v2 (r0 m)) (v2 (r1 m)) (v2 (r2 m)).

Definition mdot (a b : mat3) : mat3 :=
  Mat3 (Vec3 (dot (r0 a) (col0 b)) (dot (r0 a) (col1 b)) (dot (r0 a) (col2 b)))
       (Vec3 (dot (r1 a) (col0 b)) (dot (r1 a) (col1 b)) (dot (r1 a) (col2 b)))
       (Vec3 (dot (r2 a) (col0 b)) (dot (r2 a) (col1 b)) (dot (r2 a) (col2 b))).

Definition cross (a b : vec3) : vec3 :=
  Vec3 (v1 a * v2 b - v2 a * v1 b)
       (v2 a * v0 b - v0 a * v2 b)
       (v0 a * v1 b - v1 a * v0 b).

Definition norm (a : vec3) : float := PrimFloat.sqrt (dot a a).

Definition eye3 : mat3 := Mat3 (Vec3 1 0 0) (Vec3 0 1 0) (Vec3 0 0 1).

Definition zeros3 : vec3 := Vec3 0 0 0.

(** The attributes the geometry uses. *)
Record Complex : Type := MkComplex {
  atom_to_be_functionalized_xyz : vec3;
  bonded_atom_xyz : vec3;
  bond_length : vec3;
  bond_length_norm : vec3;
  equilateral_triangle : mat3
}.

Definition template : mat3 :=
  Mat3 (Vec3 0 (1 / PrimFloat.sqrt 3.0) 0)
       (Vec3 (-0.5) (-0.5 / PrimFloat.sqrt 3.0) 0)
       (Vec3 0.5 (-0.5 / PrimFloat.sqrt 3.0) 0).

(** [Complex.__init__], from the positions in rows 0 and 1. *)
Definition init (heavy bonded : vec3) : Complex :=
  let bl := vsub heavy bonded in
  {| atom_to_be_functionalized_xyz := heavy;
     bonded_atom_xyz := bonded;
     bond_length := bl;
     bond_length_norm := vdiv bl (norm bl);
     equilateral_triangle := template |}.

Definition distance (a b : vec3) : float :=
  let d := vsub a b in
  PrimFloat.sqrt (v0 d * v0 d + v1 d * v1 d + v2 d * v2 d).

Definition find_centroid (self : Complex) : vec3 * Complex :=
  let b := distance (atom_to_be_functionalized_xyz self) (bonded_atom_xyz self) in
  let b := b * (2.0 * PrimFloat.sqrt (2.0 / 3.0)) in
  let self :=
    {| atom_to_be_functionalized_xyz := atom_to_be_functionalized_xyz self;
       bonded_atom_xyz := bonded_atom_xyz self;
       bond_length := bond_length self;
       bond_length_norm := bond_length_norm self;
       equilateral_triangle := mscale_l b (equilateral_triangle self) |} in
  let centroid :=
    vadd (atom_to_be_functionalized_xyz self) (vscale (b / 3.0) (bond_length_norm self)) in
  (centroid, self).

Definition rotation_matrix (bond_length_norm : vec3) : mat3 :=
  let normal_vector := Vec3 0 0 1 in
  let normal_vector := vdiv normal_vector (norm normal_vector) in
  let v := cross normal_vector bond_length_norm in
  let v_x := Mat3 (Vec3 0 (- v2 v) (v1 v))
                  (Vec3 (v2 v) 0 (- v0 v))
                  (Vec3 (- v1 v) (v0 v) 0) in
  let v_xsq := mdot v_x v_x in
  let c := dot bond_length_norm normal_vector in
  madd (madd eye3 v_x) (mscale_r v_xsq (1 / (1 + c))).

Definition generate_substituent_vectors (self : Complex)
  : (vec3 * vec3 * vec3) * Complex :=
  let '(centroid, self) := find_centroid self in
  let w1 := r0 (equilateral_triangle self) in
  let w2 := r1 (equilateral_triangle self) in
  let w3 := r2 (equilateral_triangle self) in
  let starting_coordinate := zeros3 in
  let rotation_matrix := rotation_matrix (bond_length_norm self) in
  let substituent_1_vector := mdotv rotation_matrix w1 in
  let substituent_2_vector := mdotv rotation_matrix w2 in
  let substituent_3_vector := mdotv rotation_matrix w3 in
  ((vadd (vneg (vsub starting_coordinate centroid)) substituent_1_vector,
    vadd (vneg (vsub starting_coordinate centroid)) substituent_2_vector,
    vadd (vneg (vsub starting_coordinate centroid)) substituent_3_vector),
   self).

(** The first call on a fresh object, and the centroid. *)
Definition substituents (heavy bonded : vec3) : vec3 * vec3 * vec3 :=
  fst (generate_substituent_vectors (init heavy bonded)).

Definition centroid_of (heavy bonded : vec3) : vec3 :=
  fst (find_centroid (init heavy bonded)).

(** The arithmetic mean of three points. *)
Definition mean3 (a b c : vec3) : vec3 := vdiv (vadd (vadd a b) c) 3.

End Binary64.

(** ** Laws of the geometry, within tolerance *)

(** The laws below are proved with the finite arithmetic carried out
    exactly.  They are stated for inputs on which binary64 does not
    overflow, underflow or cancel (bond length and coordinates in range, bond
    direction away from [[0,0,-1]]) and up to the relative tolerance [1e-9]
    of the bond length, so that they are not contradicted by the rounded
    results: at the sample inputs checked below the binary64 results are
    within it. *)



























(** Why the bond has to be away from [[0,0,-1]]: in binary64, with the heavy
    atom at (2^-30, 0, 0) and the bonded atom at (0,0,1), the two atoms are
    distinct and the bond is not anti-parallel to [[0,0,1]], yet [c] rounds
    to [-1] and every component of the three returned points is NaN. *)
Lemma near_singular_bond_in_binary64 :
  let heavy := Binary64.Vec3 0x1p-30 0 0 in
  let bonded := Binary64.Vec3 0 0 1 in
  Binary64.v0 (Binary64.bond_length_norm (Binary64.init heavy bonded)) = 0x1p-30%float /\
  Binary64.v2 (Binary64.bond_length_norm (Binary64.init heavy bonded)) = (-1)%float /\
  Binary64.substituents heavy bonded =
    (Binary64.Vec3 nan nan nan, Binary64.Vec3 nan nan nan, Binary64.Vec3 nan nan nan).
Proof. vm_compute. repeat split. Qed.




(** ** The laws at sample inputs, in binary64

    The laws above are proved of the embedding that computes finite values
    exactly, where they hold with no error at all; the range and the
    tolerance are there for the rounding of the program's binary64
    arithmetic.  The checks below run the binary64 embedding on inputs in
    range: on the axes and off them, near the bound [-0.99] on the z
    component of the bond direction, far from the origin, and with bond
    lengths of [2^-300] and [2^300]. *)

(** [x] and [y] differ by at most [2^-30 * d]; [2^-30 < 1e-9]. *)
Definition close64 (d x y : float) : bool :=
  PrimFloat.leb (PrimFloat.abs (x - y)) (0x1p-30 * d)%float.

Definition close3_64 (d : float) (p q : Binary64.vec3) : bool :=
  close64 d (Binary64.v0 p) (Binary64.v0 q) &&
  close64 d (Binary64.v1 p) (Binary64.v1 q) &&
  close64 d (Binary64.v2 p) (Binary64.v2 q).

(** The edges, the distances from the heavy atom and the mean, as C1 and
    C10 (amended) state them. *)
Definition triangle_laws64 (hb : Binary64.vec3 * Binary64.vec3) : bool :=
  let '(h, b) := hb in
  let d := Binary64.distance h b in
  let e := (2 * PrimFloat.sqrt (2 / 3) * d)%float in
  let '(s1, s2, s3) := Binary64.substituents h b in
  close64 d (Binary64.distance s1 s2) e &&
  close64 d (Binary64.distance s1 s3) e &&
  close64 d (Binary64.distance s2 s3) e &&
  close64 d (Binary64.distance h s1) (Binary64.distance h s2) &&
  close64 d (Binary64.distance h s2) (Binary64.distance h s3) &&
  close64 d (Binary64.distance h s1) (Binary64.distance h s3) &&
  close3_64 d (Binary64.mean3 s1 s2 s3) (Binary64.centroid_of h b).

(** Translation by [t], as C7 (amended) states it. *)
Definition translation_law64 (t : Binary64.vec3) (hb : Binary64.vec3 * Binary64.vec3)
  : bool :=
  let '(h, b) := hb in
  let d := Binary64.distance h b in
  let '(s1, s2, s3) := Binary64.substituents h b in
  let '(s1', s2', s3') := Binary64.substituents (Binary64.vadd h t) (Binary64.vadd b t) in
  close3_64 d s1' (Binary64.vadd s1 t) &&
  close3_64 d s2' (Binary64.vadd s2 t) &&
  close3_64 d s3' (Binary64.vadd s3 t).

Definition sample_inputs : list (Binary64.vec3 * Binary64.vec3) :=
  [ (Binary64.Vec3 0 0 1, Binary64.Vec3 0 0 0);
    (Binary64.Vec3 1 1 1, Binary64.Vec3 0 0 0);
    (Binary64.Vec3 3 4 0, Binary64.Vec3 0 0 0);
    (Binary64.Vec3 0 0 3, Binary64.Vec3 0 0 1);
    (Binary64.Vec3 0 0 0, Binary64.Vec3 1 0 0);
    (Binary64.Vec3 1 0 (-7), Binary64.Vec3 0 0 0);
    (Binary64.Vec3 9001 (-9000) 9000, Binary64.Vec3 9000 (-9000) 9000);
    (Binary64.Vec3 0x1p-300 0 0, Binary64.Vec3 0 0 0);
    (Binary64.Vec3 0 0x1p300 0, Binary64.Vec3 0 0 0) ].

Lemma triangle_laws_at_samples : forallb triangle_laws64 sample_inputs = true.
Proof. vm_compute. reflexivity. Qed.

Lemma translation_law_at_samples :
  forallb (translation_law64 (Binary64.Vec3 1 2 3)) (firstn 7 sample_inputs) = true.
Proof. vm_compute. reflexivity. Qed.

(** In binary64 too a call changes the stored template and nothing else,
    and the second call on a fresh object returns other points than the
    first. *)
Lemma call_rescales_template_in_binary64 (self : Binary64.Complex) :
  snd (Binary64.generate_substituent_vectors self) =
  Binary64.MkComplex
    (Binary64.atom_to_be_functionalized_xyz self) (Binary64.bonded_atom_xyz self)
    (Binary64.bond_length self) (Binary64.bond_length_norm self)
    (Binary64.mscale_l
       (Binary64.distance (Binary64.atom_to_be_functionalized_xyz self)
          (Binary64.bonded_atom_xyz self) * (2 * PrimFloat.sqrt (2 / 3)))%float
       (Binary64.equilateral_triangle self)).
Proof. reflexivity. Qed.

Lemma repeated_calls_differ_in_binary64 :
  let self := Binary64.init (Binary64.Vec3 0 0 1) (Binary64.Vec3 0 0 0) in
  let '((s1, _, _), self1) := Binary64.generate_substituent_vectors self in
  let '((t1, _, _), _) := Binary64.generate_substituent_vectors self1 in
  PrimFloat.ltb (Binary64.v1 s1) 1 = true /\
  PrimFloat.ltb 1.5 (Binary64.v1 t1) = true.
Proof. vm_compute. split; reflexivity. Qed.

(** ** The output file *)

(** Text is a list of characters; a file is absent or has a content.  The
    platform is POSIX: [os.linesep] is the line feed, and writing in text
    mode leaves the characters as they are. *)
Definition text : Type := list ascii.

Definition LF : ascii := "010"%char.
Definition CR : ascii := "013"%char.
Definition SP : ascii := " "%char.

Definition file : Type := option text.

(** [open(filename, 'a')] followed by [write]: the file is created when it
    is not there, and the characters go after what it holds. *)
Definition append_to (f : file) (s : text) : file :=
  match f with
  | None => Some s
  | Some old => Some (old ++ s)
  end.

(** Reading in text mode with the default [newline=None]: every CR LF and
    every other CR comes out as LF. *)
Fixpoint universal_newlines (s : text) : text :=
  match s with
  | [] => []
  | c :: r =>
      if Ascii.eqb c CR then
        LF :: match r with
              | c' :: r' => if Ascii.eqb c' LF then universal_newlines r'
                            else universal_newlines r
              | [] => universal_newlines r
              end
      else c :: universal_newlines r
  end.

(** The lines of a text, each with its line feed, the last one maybe
    without. *)
Fixpoint splitlines (s : text) : list text :=
  match s with
  | [] => []
  | c :: r =>
      if Ascii.eqb c LF then [c] :: splitlines r
      else match splitlines r with
           | [] => [[c]]
           | l :: ls => (c :: l) :: ls
           end
  end.

(** [open(filename).readlines()]. *)
Definition readlines (f : file) : result (list text) :=
  match f with
  | None => Raise FileNotFoundError
  | Some s => Ok (splitlines (universal_newlines s))
  end.

(** [s.replace(c, '')]. *)
Definition remove_char (c : ascii) (s : text) : text :=
  filter (fun a => negb (Ascii.eqb a c)) s.

(** [l[i]] and [l[i] = x] for [0 <= i]. *)
Definition get_item {A} (l : list A) (i : nat) : result A :=
  match nth_error l i with
  | Some x => Ok x
  | None => Raise IndexError
  end.

Definition set_item {A} (l : list A) (i : nat) (x : A) : result (list A) :=
  if i <? List.length l then Ok (firstn i l ++ x :: skipn (S i) l)
  else Raise IndexError.

Section WriteXyz.

(** What [to_csv] writes for a float cell and for the index cell (the atom
    label, quoted by the csv writer when it has to be). *)
Variable repr_float : float64 -> text.
Variable repr_label : string -> text.

Definition row_text (r : atom_row) : text :=
  repr_label (atom r) ++ SP :: repr_float (v0 (xyz r)) ++ SP :: repr_float (v1 (xyz r))
    ++ SP :: repr_float (v2 (xyz r)).

(** [write_data.to_csv(sep=' ', header=False)]: one line per row. *)
Definition to_csv (rows : list atom_row) : text :=
  List.concat (map (fun r => row_text r ++ [LF]) rows).

(** [Complex.write_xyz], on the file named [filename]. *)
Definition write_xyz (self : Complex) (f : file)
  (substituent_1_atom substituent_2_atom substituent_3_atom : string)
  : result (file * Complex) :=
  let '((v_1, v_2, v_3), self) := generate_substituent_vectors self in
  atom_to_be_functionalized <-
    loc (data_matrix self) (atom_to_be_functionalized_index self) ;;
  bonded_atom <- loc (data_matrix self) (bonded_atom_index self) ;;
  let substituent_1 := AtomRow substituent_1_atom v_1 in
  let substituent_2 := AtomRow substituent_2_atom v_2 in
  let substituent_3 := AtomRow substituent_3_atom v_3 in
  let write_data :=
    [atom_to_be_functionalized; bonded_atom; substituent_1; substituent_2; substituent_3] in
  let f := append_to f ["4"%char; LF] in
  let f := append_to f [LF] in
  let f := append_to f (to_csv write_data) in
  lines <- readlines f ;;
  let last := (List.length lines - 1)%nat in
  line <- get_item lines last ;;
  lines <- set_item lines last (remove_char LF (remove_char CR line)) ;;
  Ok (Some (List.concat lines), self).

End WriteXyz.

(** *** Texts and lines *)

Definition no_cr (s : text) : Prop := Forall (fun c => c <> CR) s.

Definition not_starting_with_lf (s : text) : Prop :=
  match s with
  | c :: _ => c <> LF
  | [] => True
  end.

(** [f] applied to the last element. *)
Fixpoint map_last {A} (f : A -> A) (l : list A) : list A :=
  match l with
  | [] => []
  | [x] => [f x]
  | x :: r => x :: map_last f r
  end.

Lemma universal_newlines_no_cr (s : text) : no_cr s -> universal_newlines s = s.
Proof.
  induction 1 as [| c r Hc _ IH]; [reflexivity |].
  cbn [universal_newlines]. apply Ascii.eqb_neq in Hc. rewrite Hc. now rewrite IH.
Qed.

(** The translation looks at most one character ahead, so it splits at
    every point that is not between a CR and an LF. *)
Lemma universal_newlines_app_len (n : nat) :
  forall s t : text,
    (List.length s <= n)%nat -> not_starting_with_lf t ->
    universal_newlines (s ++ t) = universal_newlines s ++ universal_newlines t.
Proof.
  induction n as [| n IH]; intros s t Hlen Ht.
  - destruct s; [reflexivity | cbn in Hlen; lia].
  - destruct s as [| c r]; [reflexivity |].
    cbn [List.length] in Hlen. cbn [app universal_newlines].
    destruct (Ascii.eqb c CR).
    + destruct r as [| c' r'].
      * cbn [app universal_newlines]. destruct t as [| c' t']; [reflexivity |].
        cbn [not_starting_with_lf] in Ht. apply Ascii.eqb_neq in Ht. now rewrite Ht.
      * cbn [app]. destruct (Ascii.eqb c' LF).
        -- cbn [List.length] in Hlen. rewrite IH by (assumption || lia). reflexivity.
        -- change (c' :: r' ++ t) with ((c' :: r') ++ t).
           rewrite IH by (assumption || lia). reflexivity.
    + rewrite IH by (assumption || lia). reflexivity.
Qed.

Lemma universal_newlines_app (s t : text) :
  not_starting_with_lf t ->
  universal_newlines (s ++ t) = universal_newlines s ++ universal_newlines t.
Proof. now apply (universal_newlines_app_len (List.length s)). Qed.

Lemma universal_newlines_clean_len (n : nat) :
  forall s : text, (List.length s <= n)%nat -> no_cr (universal_newlines s).
Proof.
  induction n as [| n IH]; intros s Hlen.
  - destruct s; [constructor | cbn in Hlen; lia].
  - destruct s as [| c r]; [constructor |].
    cbn [List.length] in Hlen. cbn [universal_newlines].
    destruct (Ascii.eqb c CR) eqn:Ec.
    + constructor; [discriminate |].
      destruct r as [| c' r']; [constructor |].
      cbn [List.length] in Hlen.
      destruct (Ascii.eqb c' LF); apply IH; cbn [List.length]; lia.
    + constructor; [now apply Ascii.eqb_neq | apply IH; lia].
Qed.

Lemma universal_newlines_clean (s : text) : no_cr (universal_newlines s).
Proof. now apply (universal_newlines_clean_len (List.length s)). Qed.

Lemma concat_splitlines (s : text) : List.concat (splitlines s) = s.
Proof.
  induction s as [| c r IH]; [reflexivity |].
  cbn [splitlines]. destruct (Ascii.eqb c LF).
  - cbn [List.concat app]. now rewrite IH.
  - destruct (splitlines r) as [| l ls]; cbn [List.concat app] in *.
    + now rewrite <- IH.
    + now rewrite <- IH.
Qed.

Lemma splitlines_nonempty (s : text) : s <> [] -> splitlines s <> [].
Proof.
  destruct s as [| c r]; [congruence |]. intros _. cbn [splitlines].
  destruct (Ascii.eqb c LF); [discriminate |].
  destruct (splitlines r); discriminate.
Qed.

Definition strip_line (l : text) : text := remove_char LF (remove_char CR l).

(** Stripping the last line of a text that ends in a line feed removes
    that line feed and nothing else. *)
Lemma strip_last_line (s : text) :
  no_cr s ->
  List.concat (map_last strip_line (splitlines (s ++ [LF]))) = s.
Proof.
  induction 1 as [| c r Hc Hr IH]; [reflexivity |].
  cbn [app splitlines].
  assert (Hne : splitlines (r ++ [LF]) <> [])
    by (apply splitlines_nonempty; now destruct r).
  destruct (Ascii.eqb c LF) eqn:Ec.
  - apply Ascii.eqb_eq in Ec. subst c.
    destruct (splitlines (r ++ [LF])) as [| l ls]; [congruence |].
    cbn [map_last List.concat app] in *. now rewrite IH.
  - destruct (splitlines (r ++ [LF])) as [| l ls]; [congruence |].
    destruct ls as [| l' ls'].
    + cbn [map_last List.concat] in *. rewrite app_nil_r in *.
      unfold strip_line, remove_char in *. cbn [filter].
      apply Ascii.eqb_neq in Hc. rewrite Hc. cbn [negb filter]. rewrite Ec.
      cbn [negb]. now rewrite IH.
    + cbn [map_last List.concat app] in *. now rewrite IH.
Qed.

Lemma map_last_app {A} (f : A -> A) (r : list A) (x : A) :
  map_last f (r ++ [x]) = r ++ [f x].
Proof.
  induction r as [| a r' IH]; [reflexivity |].
  destruct r' as [| b r'']; [reflexivity |].
  change (map_last f ((a :: b :: r'') ++ [x])) with (a :: map_last f ((b :: r'') ++ [x])).
  now rewrite IH.
Qed.

(** Python's read and update of the last line, on a list that has one. *)
Lemma last_index {A} (r : list A) (x : A) :
  (List.length (r ++ [x]) - 1)%nat = List.length r.
Proof. rewrite length_app. cbn [List.length]. lia. Qed.

Lemma get_item_last {A} (r : list A) (x : A) :
  get_item (r ++ [x]) (List.length (r ++ [x]) - 1) = Ok x.
Proof.
  rewrite last_index. unfold get_item.
  now rewrite nth_error_app2, Nat.sub_diag by lia.
Qed.

Lemma set_item_last {A} (r : list A) (x y : A) :
  set_item (r ++ [x]) (List.length (r ++ [x]) - 1) y = Ok (r ++ [y]).
Proof.
  rewrite last_index. unfold set_item.
  assert (Hlt : (List.length r <? List.length (r ++ [x])) = true)
    by (apply Nat.ltb_lt; rewrite length_app; cbn [List.length]; lia).
  rewrite Hlt, firstn_app, firstn_all, Nat.sub_diag. cbn [firstn].
  rewrite skipn_all2 by (rewrite length_app; cbn [List.length]; lia).
  now rewrite app_nil_r.
Qed.

(** The lines of a list of rows, joined by line feeds. *)
Fixpoint join_lines (ls : list text) : text :=
  match ls with
  | [] => []
  | [l] => l
  | l :: r => l ++ LF :: join_lines r
  end.

Lemma concat_lines_join (ls : list text) :
  ls <> [] ->
  List.concat (map (fun l => l ++ [LF]) ls) = join_lines ls ++ [LF].
Proof.
  induction ls as [| l r IH]; [congruence |]. intros _.
  destruct r as [| l' r'].
  - cbn. now rewrite app_nil_r.
  - change (join_lines (l :: l' :: r')) with (l ++ LF :: join_lines (l' :: r')).
    cbn [map List.concat] in *. rewrite IH by discriminate.
    now rewrite <- !app_assoc.
Qed.

Lemma no_cr_join_lines (ls : list text) :
  Forall no_cr ls -> no_cr (join_lines ls).
Proof.
  induction 1 as [| l r Hl Hr IH]; [constructor |].
  destruct r as [| l' r']; [exact Hl |].
  change (join_lines (l :: l' :: r')) with (l ++ LF :: join_lines (l' :: r')).
  apply Forall_app. split; [exact Hl |]. constructor; [discriminate | exact IH].
Qed.

(** *** What [write_xyz] leaves in the file *)

Definition old_text (f : file) : text :=
  match f with
  | None => []
  | Some s => s
  end.

Definition header : text := ["4"%char; LF; LF].

Lemma appended_text (f : file) (csv : text) :
  append_to (append_to (append_to f ["4"%char; LF]) [LF]) csv =
  Some (old_text f ++ header ++ csv).
Proof.
  destruct f as [old |]; cbn [append_to old_text header app].
  - now rewrite <- !app_assoc.
  - reflexivity.
Qed.

Section WriteXyzProperties.

Variable repr_float : float64 -> text.
Variable repr_label : string -> text.

Local Abbreviation row := (row_text repr_float repr_label).

Variables (self self' : Complex) (v_1 v_2 v_3 : vec3) (a b : atom_row).
Variables (l1 l2 l3 : string).

Hypothesis Hgen : generate_substituent_vectors self = ((v_1, v_2, v_3), self').
Hypothesis Ha : loc (data_matrix self') (atom_to_be_functionalized_index self') = Ok a.
Hypothesis Hb : loc (data_matrix self') (bonded_atom_index self') = Ok b.

Local Abbreviation rows := [a; b; AtomRow l1 v_1; AtomRow l2 v_2; AtomRow l3 v_3].

(** The file after the three appends and the read-strip-rewrite pass. *)
Lemma write_xyz_unfolded (f : file) :
  write_xyz repr_float repr_label self f l1 l2 l3 =
  (lines <- Ok (splitlines (universal_newlines
                              (old_text f ++ header ++ to_csv repr_float repr_label rows))) ;;
   line <- get_item lines (List.length lines - 1) ;;
   lines <- set_item lines (List.length lines - 1) (remove_char LF (remove_char CR line)) ;;
   Ok (Some (List.concat lines), self')).
Proof.
  unfold write_xyz. rewrite Hgen, Ha, Hb. cbn [bind].
  now rewrite appended_text.
Qed.

(** [write_xyz] returns, whatever the file holds and however the cells are
    rendered. *)
Lemma write_xyz_returns (f : file) :
  write_xyz repr_float repr_label self f l1 l2 l3 =
  Ok (Some (List.concat
              (map_last strip_line
                 (splitlines (universal_newlines
                                (old_text f ++ header ++ to_csv repr_float repr_label rows))))),
      self').
Proof.
  rewrite write_xyz_unfolded. cbn [bind].
  set (t := universal_newlines (old_text f ++ header ++ to_csv repr_float repr_label rows)).
  assert (Hne : splitlines t <> []).
  { apply splitlines_nonempty. unfold t.
    rewrite universal_newlines_app by (cbn; discriminate).
    cbn [header app universal_newlines Ascii.eqb]. intros E.
    apply app_eq_nil in E. destruct E as [_ E]. revert E. cbn. discriminate. }
  destruct (exists_last Hne) as (r & x & E). rewrite E.
  rewrite get_item_last. cbn [bind]. rewrite set_item_last. cbn [bind].
  now rewrite map_last_app.
Qed.

Lemma to_csv_join :
  to_csv repr_float repr_label rows = join_lines (map row rows) ++ [LF].
Proof.
  unfold to_csv.
  rewrite <- (concat_lines_join (map row rows)) by discriminate.
  now rewrite map_map.
Qed.

(** With no carriage return in the rendered rows, the file holds what it
    held, read with universal newlines, then the header and the five rows,
    without the last line feed. *)
Lemma write_xyz_content (f : file) :
  Forall (fun r => no_cr (row r)) rows ->
  write_xyz repr_float repr_label self f l1 l2 l3 =
  Ok (Some (universal_newlines (old_text f) ++ header ++ join_lines (map row rows)),
      self').
Proof.
  intros Hrows. rewrite write_xyz_returns. do 3 f_equal.
  assert (Hbody : no_cr (header ++ join_lines (map row rows))).
  { apply Forall_app. split.
    - repeat constructor; discriminate.
    - apply no_cr_join_lines. now apply Forall_map. }
  rewrite to_csv_join, universal_newlines_app by (cbn; discriminate).
  rewrite (universal_newlines_no_cr (header ++ _ ++ [LF])).
  - rewrite !app_assoc. apply strip_last_line. rewrite <- app_assoc.
    apply Forall_app. split; [apply universal_newlines_clean | exact Hbody].
  - rewrite app_assoc. apply Forall_app. split; [exact Hbody |].
    repeat constructor; discriminate.
Qed.

End WriteXyzProperties.

(** *** Objects made by the constructor *)

Lemma init_rows a b rest self :
  init (a :: b :: rest) = Ok self ->
  forall r self', generate_substituent_vectors self = (r, self') ->
  loc (data_matrix self') (atom_to_be_functionalized_index self') = Ok a /\
  loc (data_matrix self') (bonded_atom_index self') = Ok b.
Proof.
  unfold init. cbn [loc nth_error bind]. intros E r self' Hgen.
  injection E as <-.
  pose proof (generate_substituent_vectors_state
                {| data_matrix := a :: b :: rest;
                   atom_to_be_functionalized_index := 0;
                   atom_to_be_functionalized_xyz := xyz a;
                   bonded_atom_index := 1;
                   bonded_atom_xyz := xyz b;
                   bond_length := vsub (xyz a) (xyz b);
                   bond_length_norm := vdiv (vsub (xyz a) (xyz b)) (norm (vsub (xyz a) (xyz b)));
                   equilateral_triangle := template |}) as Hs.
  rewrite Hgen in Hs. cbn [snd] in Hs. subst self'. split; reflexivity.
Qed.

(** C8 (as amended): when the output file is absent or empty (and no
    rendered cell holds a carriage return), after [write_xyz] the file is
    the line [4], an empty line, and the rows [<atom-label> <x> <y> <z>] of
    the heavy atom, the bonded atom and substituents 1, 2, 3 in that order,
    with no line feed after the last row. *)
Theorem write_xyz_into_empty_file
  (repr_float : float64 -> text) (repr_label : string -> text)
  (a b : atom_row) (rest : list atom_row) (self self' : Complex)
  (l1 l2 l3 : string) (v_1 v_2 v_3 : vec3) (f : file) :
  init (a :: b :: rest) = Ok self ->
  generate_substituent_vectors self = ((v_1, v_2, v_3), self') ->
  Forall (fun r => no_cr (row_text repr_float repr_label r))
    [a; b; AtomRow l1 v_1; AtomRow l2 v_2; AtomRow l3 v_3] ->
  f = None \/ f = Some [] ->
  write_xyz repr_float repr_label self f l1 l2 l3 =
  Ok (Some ("4"%char :: LF :: LF ::
            row_text repr_float repr_label a ++ LF ::
            row_text repr_float repr_label b ++ LF ::
            row_text repr_float repr_label (AtomRow l1 v_1) ++ LF ::
            row_text repr_float repr_label (AtomRow l2 v_2) ++ LF ::
            row_text repr_float repr_label (AtomRow l3 v_3)),
      self').
Proof.
  intros Hinit Hgen Hrows Hf.
  destruct (init_rows a b rest self Hinit _ _ Hgen) as [Ha Hb].
  rewrite (write_xyz_content repr_float repr_label self self' v_1 v_2 v_3 a b
             l1 l2 l3 Hgen Ha Hb f Hrows).
  destruct Hf as [-> | ->]; reflexivity.
Qed.

Lemma universal_newlines_nil (s : text) : universal_newlines s = [] <-> s = [].
Proof.
  split; [| now intros ->].
  destruct s as [| c r]; [reflexivity |]. cbn [universal_newlines].
  destruct (Ascii.eqb c CR); discriminate.
Qed.

(** A rendering for the examples: labels as they are, every float as [0.0]. *)
Definition verbatim_label (s : string) : text := list_ascii_of_string s.
Definition constant_repr (_ : float64) : text := list_ascii_of_string "0.0".

Ltac no_cr_rows :=
  unfold no_cr, row_text, constant_repr, verbatim_label;
  cbn [atom xyz list_ascii_of_string app];
  repeat constructor; discriminate.

Lemma write_xyz_into_empty_file_witness :
  exists self v_1 v_2 v_3 self',
    init (two_atoms "C" "H" (0, 0, 1) (0, 0, 0) []) = Ok self /\
    generate_substituent_vectors self = ((v_1, v_2, v_3), self') /\
    write_xyz constant_repr verbatim_label self None "H" "H" "H" =
    Ok (Some ("4"%char :: LF :: LF ::
              row_text constant_repr verbatim_label (AtomRow "C" (fin (0, 0, 1))) ++ LF ::
              row_text constant_repr verbatim_label (AtomRow "H" (fin (0, 0, 0))) ++ LF ::
              row_text constant_repr verbatim_label (AtomRow "H" v_1) ++ LF ::
              row_text constant_repr verbatim_label (AtomRow "H" v_2) ++ LF ::
              row_text constant_repr verbatim_label (AtomRow "H" v_3)),
        self').
Proof.
  do 5 eexists. split; [apply init_two_atoms |]. split; [reflexivity |].
  apply (write_xyz_into_empty_file constant_repr verbatim_label
           (AtomRow "C" (fin (0, 0, 1))) (AtomRow "H" (fin (0, 0, 0))) []).
  - apply init_two_atoms.
  - reflexivity.
  - no_cr_rows.
  - left. reflexivity.
Defined.

(** The first lines of the file when it held [old] and the translation of
    [old] ends a line: they do not depend on the rendering. *)
Lemma write_xyz_first_lines repr_float repr_label la lb h b (old : text) :
  exists self,
    init (two_atoms la lb h b []) = Ok self /\
    forall l1 l2 l3, exists csv self',
      write_xyz repr_float repr_label self (Some old) l1 l2 l3 =
      Ok (Some (List.concat
                  (map_last strip_line
                     (splitlines (universal_newlines (old ++ header ++ csv))))),
          self').
Proof.
  eexists. split; [apply init_two_atoms |]. intros l1 l2 l3.
  match goal with |- context [write_xyz _ _ ?s] =>
    destruct (generate_substituent_vectors s) as [[[v_1 v_2] v_3] self'] eqn:Hgen;
    destruct (init_rows _ _ [] s (init_two_atoms la lb h b []) _ _ Hgen) as [Ha Hb]
  end.
  eexists. exists self'.
  now rewrite (write_xyz_returns repr_float repr_label _ self' v_1 v_2 v_3 _ _
                 l1 l2 l3 Hgen Ha Hb (Some old)).
Qed.

(** C8 (as stated) fails: when the file holds the line [x], the first line
    after [write_xyz] is still [x], not [4], however the cells are
    rendered. *)
Lemma write_xyz_header_not_first :
  exists self,
    init (two_atoms "C" "H" (0, 0, 1) (0, 0, 0) []) = Ok self /\
    forall repr_float repr_label, exists out self',
      write_xyz repr_float repr_label self (Some ["x"%char; LF]) "H" "H" "H" =
        Ok (Some out, self') /\
      ~ exists rest, out = "4"%char :: LF :: LF :: rest.
Proof.
  destruct (write_xyz_first_lines constant_repr verbatim_label "C" "H"
              (0, 0, 1) (0, 0, 0) []) as (self & Hinit & _).
  exists self. split; [exact Hinit |]. intros repr_float repr_label.
  destruct (write_xyz_first_lines repr_float repr_label "C" "H"
              (0, 0, 1) (0, 0, 0) ["x"%char; LF]) as (self0 & Hinit0 & H).
  assert (self0 = self) by congruence. subst self0.
  destruct (H "H" "H" "H")%string as (csv & self' & Hw).
  eexists. exists self'. split; [exact Hw |].
  cbn [app header universal_newlines Ascii.eqb Bool.eqb CR LF].
  set (u := universal_newlines csv). clearbody u.
  cbn [splitlines Ascii.eqb Bool.eqb LF map_last List.concat app].
  intros (rest & E). discriminate E.
Qed.

(** C9 (as stated) fails: a file that holds [a CR LF] holds [a LF] after
    [write_xyz]; its old content is not a prefix of the new one, however
    the cells are rendered. *)
Lemma write_xyz_rewrites_old_content :
  exists self,
    init (two_atoms "C" "H" (0, 0, 1) (0, 0, 0) []) = Ok self /\
    forall repr_float repr_label, exists out self',
      write_xyz repr_float repr_label self (Some ["a"%char; CR; LF]) "H" "H" "H" =
        Ok (Some out, self') /\
      ~ exists rest, out = ["a"%char; CR; LF] ++ rest.
Proof.
  destruct (write_xyz_first_lines constant_repr verbatim_label "C" "H"
              (0, 0, 1) (0, 0, 0) []) as (self & Hinit & _).
  exists self. split; [exact Hinit |]. intros repr_float repr_label.
  destruct (write_xyz_first_lines repr_float repr_label "C" "H"
              (0, 0, 1) (0, 0, 0) ["a"%char; CR; LF]) as (self0 & Hinit0 & H).
  assert (self0 = self) by congruence. subst self0.
  destruct (H "H" "H" "H")%string as (csv & self' & Hw).
  eexists. exists self'. split; [exact Hw |].
  cbn [app header universal_newlines Ascii.eqb Bool.eqb CR LF].
  set (u := universal_newlines csv). clearbody u.
  cbn [splitlines Ascii.eqb Bool.eqb LF map_last List.concat app].
  intros (rest & E). discriminate E.
Qed.

(** ** The output file as bytes

    Python opens the output file in text mode: what the program writes is
    encoded, and what it reads is decoded, with the locale codec.  Above, a
    file is the text it decodes to, which is all there is to say when the
    file holds nothing but what the program wrote.  A file that was there
    before may hold bytes the codec rejects, and then [readlines] raises
    [UnicodeDecodeError].  Here the content of a file is what the codec
    makes of its bytes: characters, and [Undecodable] where the bytes are
    not valid.  The path names a regular file that can be read and written,
    or nothing. *)

Inductive stored : Type :=
| Char (c : ascii)   (* the bytes that encode the character [c] *)
| Undecodable.       (* bytes that are not valid in the locale encoding *)

Definition bytes : Type := list stored.

Definition disk_file : Type := option bytes.

Definition encode (s : text) : bytes := map Char s.

Fixpoint decode (d : bytes) : result text :=
  match d with
  | [] => Ok []
  | Char c :: r => s <- decode r ;; Ok (c :: s)
  | Undecodable :: _ => Raise UnicodeDecodeError
  end.

(** [open(filename, 'a')] followed by [write]. *)
Definition append_bytes (f : disk_file) (s : text) : disk_file :=
  match f with
  | None => Some (encode s)
  | Some old => Some (old ++ encode s)
  end.

(** [open(filename).readlines()]: decode, translate the line ends, split. *)
Definition readlines_bytes (f : disk_file) : result (list text) :=
  match f with
  | None => Raise FileNotFoundError
  | Some d => s <- decode d ;; Ok (splitlines (universal_newlines s))
  end.

Section WriteXyzOnDisk.

Variable repr_float : float64 -> text.
Variable repr_label : string -> text.

(** [Complex.write_xyz] on the bytes of the file: the file and the object
    as the call leaves them, and how the call ends ([Ok tt] when it
    returns).  An exception leaves the file as the statements before it
    have made it. *)
Definition write_xyz_on_disk (self : Complex) (f : disk_file)
  (substituent_1_atom substituent_2_atom substituent_3_atom : string)
  : disk_file * Complex * result unit :=
  let '((v_1, v_2, v_3), self) := generate_substituent_vectors self in
  match loc (data_matrix self) (atom_to_be_functionalized_index self) with
  | Raise e => (f, self, Raise e)
  | Ok atom_to_be_functionalized =>
      match loc (data_matrix self) (bonded_atom_index self) with
      | Raise e => (f, self, Raise e)
      | Ok bonded_atom =>
          let substituent_1 := AtomRow substituent_1_atom v_1 in
          let substituent_2 := AtomRow substituent_2_atom v_2 in
          let substituent_3 := AtomRow substituent_3_atom v_3 in
          let write_data :=
            [atom_to_be_functionalized; bonded_atom;
             substituent_1; substituent_2; substituent_3] in
          let f := append_bytes f ["4"%char; LF] in
          let f := append_bytes f [LF] in
          let f := append_bytes f (to_csv repr_float repr_label write_data) in
          match
            (lines <- readlines_bytes f ;;
             let last := (List.length lines - 1)%nat in
             line <- get_item lines last ;;
             set_item lines last (remove_char LF (remove_char CR line)))
          with
          | Raise e => (f, self, Raise e)
          | Ok lines => (Some (encode (List.concat lines)), self, Ok tt)
          end
      end
  end.

End WriteXyzOnDisk.

(** The script: the object is made from the table [pd.read_table] has
    parsed, and the five atoms are written to [test.xyz] with the labels
    'H', 'H', 'H'.  When the constructor raises, the file is not touched. *)
Definition main (repr_float : float64 -> text) (repr_label : string -> text)
  (table : list atom_row) (test_xyz : disk_file) : disk_file * result unit :=
  match init table with
  | Raise e => (test_xyz, Raise e)
  | Ok methyl =>
      let '(f, _, outcome) :=
        write_xyz_on_disk repr_float repr_label methyl test_xyz "H" "H" "H" in
      (f, outcome)
  end.

(** *** Decoding *)

Lemma decode_encode (s : text) : decode (encode s) = Ok s.
Proof.
  induction s as [| c r IH]; [reflexivity |].
  cbn [encode map decode]. fold (encode r). now rewrite IH.
Qed.

Lemma decode_cases (d : bytes) :
  (exists s, decode d = Ok s /\ d = encode s) \/ decode d = Raise UnicodeDecodeError.
Proof.
  induction d as [| [c |] r IH]; cbn [decode].
  - left. now exists [].
  - destruct IH as [(s & -> & ->) | ->]; [left | now right].
    exists (c :: s). now split.
  - now right.
Qed.

Lemma decode_app (d : bytes) (t : text) :
  decode (d ++ encode t) = (s <- decode d ;; Ok (s ++ t)).
Proof.
  induction d as [| [c |] r IH]; cbn [app decode bind].
  - now rewrite decode_encode.
  - rewrite IH. now destruct (decode r).
  - reflexivity.
Qed.

Lemma encode_app (s t : text) : encode (s ++ t) = encode s ++ encode t.
Proof. apply map_app. Qed.

Definition old_bytes (f : disk_file) : bytes :=
  match f with
  | None => []
  | Some d => d
  end.

Lemma appended_bytes (f : disk_file) (csv : text) :
  append_bytes (append_bytes (append_bytes f ["4"%char; LF]) [LF]) csv =
  Some (old_bytes f ++ encode (header ++ csv)).
Proof.
  destruct f as [old |]; cbn [append_bytes old_bytes].
  - now rewrite <- !app_assoc, <- !encode_app.
  - now rewrite <- !encode_app.
Qed.

Section WriteXyzOnDiskProperties.

Variable repr_float : float64 -> text.
Variable repr_label : string -> text.

Local Abbreviation row := (row_text repr_float repr_label).

Variables (self self' : Complex) (v_1 v_2 v_3 : vec3) (a b : atom_row).
Variables (l1 l2 l3 : string).

Hypothesis Hgen : generate_substituent_vectors self = ((v_1, v_2, v_3), self').
Hypothesis Ha : loc (data_matrix self') (atom_to_be_functionalized_index self') = Ok a.
Hypothesis Hb : loc (data_matrix self') (bonded_atom_index self') = Ok b.

Local Abbreviation rows := [a; b; AtomRow l1 v_1; AtomRow l2 v_2; AtomRow l3 v_3].

(** Content that does not decode: the block is appended, then reading
    raises, and the last line feed stays. *)
Lemma write_xyz_on_disk_undecodable (f : disk_file) :
  decode (old_bytes f) = Raise UnicodeDecodeError ->
  write_xyz_on_disk repr_float repr_label self f l1 l2 l3 =
  (Some (old_bytes f ++ encode (header ++ to_csv repr_float repr_label rows)), self',
   Raise UnicodeDecodeError).
Proof.
  intros Hd. unfold write_xyz_on_disk. rewrite Hgen, Ha, Hb, appended_bytes.
  cbn [readlines_bytes]. now rewrite decode_app, Hd.
Qed.

(** Content that decodes to [s]: the call returns, and the file is the one
    [write_xyz] computes from [s]. *)
Lemma write_xyz_on_disk_decodable (f : disk_file) (s : text) :
  decode (old_bytes f) = Ok s ->
  write_xyz_on_disk repr_float repr_label self f l1 l2 l3 =
  (Some (encode (List.concat
                   (map_last strip_line
                      (splitlines (universal_newlines
                                     (s ++ header ++ to_csv repr_float repr_label rows)))))),
   self', Ok tt).
Proof.
  intros Hd. unfold write_xyz_on_disk. rewrite Hgen, Ha, Hb, appended_bytes.
  cbn [readlines_bytes]. rewrite decode_app, Hd. cbn [bind].
  set (t := universal_newlines (s ++ header ++ to_csv repr_float repr_label rows)).
  assert (Hne : splitlines t <> []).
  { apply splitlines_nonempty. unfold t.
    rewrite universal_newlines_app by (cbn; discriminate).
    cbn [header app universal_newlines Ascii.eqb]. intros E.
    apply app_eq_nil in E. destruct E as [_ E]. revert E. cbn. discriminate. }
  destruct (exists_last Hne) as (r & x & E). rewrite E.
  rewrite get_item_last. cbn [bind]. rewrite set_item_last.
  now rewrite map_last_app.
Qed.

(** On a file that decodes, the call on the bytes and [write_xyz] on the
    text agree. *)
Lemma write_xyz_on_disk_text (f : file) :
  exists out,
    write_xyz repr_float repr_label self f l1 l2 l3 = Ok (Some out, self') /\
    write_xyz_on_disk repr_float repr_label self (option_map encode f) l1 l2 l3 =
      (Some (encode out), self', Ok tt).
Proof.
  eexists. split.
  - apply (write_xyz_returns repr_float repr_label self self' v_1 v_2 v_3 a b
             l1 l2 l3 Hgen Ha Hb f).
  - apply write_xyz_on_disk_decodable.
    destruct f as [old |]; cbn [option_map old_bytes old_text decode];
      [apply decode_encode | reflexivity].
Qed.

Lemma write_xyz_on_disk_content (f : disk_file) (s : text) :
  decode (old_bytes f) = Ok s ->
  Forall (fun r => no_cr (row r)) rows ->
  write_xyz_on_disk repr_float repr_label self f l1 l2 l3 =
  (Some (encode (universal_newlines s ++ header ++ join_lines (map row rows))), self', Ok tt).
Proof.
  intros Hd Hrows. rewrite (write_xyz_on_disk_decodable f s Hd).
  pose proof (write_xyz_returns repr_float repr_label self self' v_1 v_2 v_3 a b
                l1 l2 l3 Hgen Ha Hb (Some s)) as H1.
  pose proof (write_xyz_content repr_float repr_label self self' v_1 v_2 v_3 a b
                l1 l2 l3 Hgen Ha Hb (Some s) Hrows) as H2.
  rewrite H1 in H2. change (old_text (Some s)) with s in H2.
  assert (E : forall x y : text,
             @Ok (file * Complex) (Some x, self') = Ok (Some y, self') -> x = y)
    by (intros x y X; now injection X).
  apply E in H2. now rewrite H2.
Qed.

End WriteXyzOnDiskProperties.

(** C9 (as amended): [write_xyz] appends.  When what the file held decodes
    to the text [s], the call returns and the file holds [s] as reading with
    universal newlines returns it (CR LF and CR turned into LF), so
    unchanged when it holds no carriage return, and then the header and the
    five rows; the header is at the start of the file only when the file
    was empty.  When what the file held does not decode, the header and the
    five rows, with the last line feed, are appended to it, and the call
    raises [UnicodeDecodeError]. *)
Theorem write_xyz_appends_on_disk
  (repr_float : float64 -> text) (repr_label : string -> text)
  (a b : atom_row) (rest : list atom_row) (self self' : Complex)
  (l1 l2 l3 : string) (v_1 v_2 v_3 : vec3) (old : bytes) :
  init (a :: b :: rest) = Ok self ->
  generate_substituent_vectors self = ((v_1, v_2, v_3), self') ->
  Forall (fun r => no_cr (row_text repr_float repr_label r))
    [a; b; AtomRow l1 v_1; AtomRow l2 v_2; AtomRow l3 v_3] ->
  let body :=
    "4"%char :: LF :: LF ::
    row_text repr_float repr_label a ++ LF ::
    row_text repr_float repr_label b ++ LF ::
    row_text repr_float repr_label (AtomRow l1 v_1) ++ LF ::
    row_text repr_float repr_label (AtomRow l2 v_2) ++ LF ::
    row_text repr_float repr_label (AtomRow l3 v_3) in
  (forall s, decode old = Ok s ->
     write_xyz_on_disk repr_float repr_label self (Some old) l1 l2 l3 =
       (Some (encode (universal_newlines s ++ body)), self', Ok tt) /\
     (no_cr s ->
      write_xyz_on_disk repr_float repr_label self (Some old) l1 l2 l3 =
        (Some (old ++ encode body), self', Ok tt)) /\
     (universal_newlines s = [] <-> old = [])) /\
  (decode old = Raise UnicodeDecodeError ->
   write_xyz_on_disk repr_float repr_label self (Some old) l1 l2 l3 =
     (Some (old ++ encode (body ++ [LF])), self', Raise UnicodeDecodeError)) /\
  ((exists s, decode old = Ok s) \/ decode old = Raise UnicodeDecodeError).
Proof.
  intros Hinit Hgen Hrows body.
  destruct (init_rows a b rest self Hinit _ _ Hgen) as [Ha Hb].
  split; [| split].
  - intros s Hd.
    pose proof (write_xyz_on_disk_content repr_float repr_label self self' v_1 v_2 v_3 a b
                  l1 l2 l3 Hgen Ha Hb (Some old) s Hd Hrows) as H.
    destruct (decode_cases old) as [(s0 & Hs0 & Hold) | Hs0]; [| congruence].
    assert (s0 = s) by congruence. subst s0.
    split; [exact H |]. split.
    + intros Hcr. rewrite H, Hold, universal_newlines_no_cr by exact Hcr.
      now rewrite encode_app.
    + rewrite universal_newlines_nil, Hold. split; [now intros -> |].
      destruct s; [reflexivity | discriminate].
  - intros Hd.
    rewrite (write_xyz_on_disk_undecodable repr_float repr_label self self' v_1 v_2 v_3 a b
               l1 l2 l3 Hgen Ha Hb (Some old) Hd).
    cbn [old_bytes]. do 4 f_equal. unfold body, to_csv, header.
    cbn [map List.concat app]. rewrite <- !app_assoc. cbn [app].
    repeat (rewrite <- ?app_assoc; cbn [app]; f_equal).
  - destruct (decode_cases old) as [(s & Hs & _) | Hs]; [left; now exists s | now right].
Qed.

Lemma write_xyz_appends_on_disk_witness :
  exists self v_1 v_2 v_3 self',
    init (two_atoms "C" "H" (0, 0, 1) (0, 0, 0) []) = Ok self /\
    generate_substituent_vectors self = ((v_1, v_2, v_3), self') /\
    let body :=
      "4"%char :: LF :: LF ::
      row_text constant_repr verbatim_label (AtomRow "C" (fin (0, 0, 1))) ++ LF ::
      row_text constant_repr verbatim_label (AtomRow "H" (fin (0, 0, 0))) ++ LF ::
      row_text constant_repr verbatim_label (AtomRow "H" v_1) ++ LF ::
      row_text constant_repr verbatim_label (AtomRow "H" v_2) ++ LF ::
      row_text constant_repr verbatim_label (AtomRow "H" v_3) in
    let old := [Char "x"; Char LF] in
    (forall s, decode old = Ok s ->
       write_xyz_on_disk constant_repr verbatim_label self (Some old) "H" "H" "H" =
         (Some (encode (universal_newlines s ++ body)), self', Ok tt) /\
       (no_cr s ->
        write_xyz_on_disk constant_repr verbatim_label self (Some old) "H" "H" "H" =
          (Some (old ++ encode body), self', Ok tt)) /\
       (universal_newlines s = [] <-> old = [])) /\
    (decode old = Raise UnicodeDecodeError ->
     write_xyz_on_disk constant_repr verbatim_label self (Some old) "H" "H" "H" =
       (Some (old ++ encode (body ++ [LF])), self', Raise UnicodeDecodeError)) /\
    ((exists s, decode old = Ok s) \/ decode old = Raise UnicodeDecodeError).
Proof.
  do 5 eexists. split; [apply init_two_atoms |]. split; [reflexivity |].
  apply (write_xyz_appends_on_disk constant_repr verbatim_label
           (AtomRow "C" (fin (0, 0, 1))) (AtomRow "H" (fin (0, 0, 0))) []).
  - apply init_two_atoms.
  - reflexivity.
  - no_cr_rows.
Defined.

(** A file that holds one undecodable byte: after the call it holds that
    byte, the header and the five rows, and the call has raised. *)
Lemma write_xyz_on_undecodable_file :
  exists self,
    init (two_atoms "C" "H" (0, 0, 1) (0, 0, 0) []) = Ok self /\
    forall repr_float repr_label, exists csv self',
      write_xyz_on_disk repr_float repr_label self (Some [Undecodable]) "H" "H" "H" =
        (Some (Undecodable :: encode ("4"%char :: LF :: LF :: csv)), self',
         Raise UnicodeDecodeError).
Proof.
  eexists. split; [apply init_two_atoms |]. intros repr_float repr_label.
  match goal with |- context [write_xyz_on_disk _ _ ?s] =>
    destruct (generate_substituent_vectors s) as [[[v_1 v_2] v_3] self'] eqn:Hgen;
    destruct (init_rows _ _ [] s (init_two_atoms "C" "H" (0, 0, 1) (0, 0, 0) []) _ _ Hgen)
      as [Ha Hb]
  end.
  eexists. exists self'.
  now rewrite (write_xyz_on_disk_undecodable repr_float repr_label _ self' v_1 v_2 v_3 _ _
                 "H" "H" "H" Hgen Ha Hb (Some [Undecodable]) eq_refl).
Qed.

(** * Further properties of the code *)

(** ** The constructor *)

(** X1: [__init__] needs the rows 0 and 1 of the table: it raises [KeyError]
    exactly on a table with fewer than two rows, and on every other table it
    returns an object that holds the table and the positions of its first
    two rows. *)
Theorem init_key_error (table : list atom_row) :
  (init table = Raise KeyError <-> (List.length table < 2)%nat) /\
  ((2 <= List.length table)%nat ->
   exists self,
     init table = Ok self /\
     data_matrix self = table /\
     loc table 0 = Ok (AtomRow (atom (nth 0 table (AtomRow "" zeros3)))
                         (atom_to_be_functionalized_xyz self)) /\
     loc table 1 = Ok (AtomRow (atom (nth 1 table (AtomRow "" zeros3)))
                         (bonded_atom_xyz self))).
Proof.
  destruct table as [| [la pa] [| [lb pb] rest]]; cbn [List.length].
  - split; [split; [lia | reflexivity] | lia].
  - split; [split; [lia | reflexivity] | lia].
  - split.
    + split; [discriminate | lia].
    + intros _. eexists. split; [reflexivity |]. repeat split.
Qed.

Lemma init_key_error_witness :
  exists self,
    init (two_atoms "C" "H" (0, 0, 1) (0, 0, 0) []) = Ok self /\
    data_matrix self = two_atoms "C" "H" (0, 0, 1) (0, 0, 0) [] /\
    loc (two_atoms "C" "H" (0, 0, 1) (0, 0, 0) []) 0 =
      Ok (AtomRow (atom (nth 0 (two_atoms "C" "H" (0, 0, 1) (0, 0, 0) []) (AtomRow "" zeros3)))
            (atom_to_be_functionalized_xyz self)) /\
    loc (two_atoms "C" "H" (0, 0, 1) (0, 0, 0) []) 1 =
      Ok (AtomRow (atom (nth 1 (two_atoms "C" "H" (0, 0, 1) (0, 0, 0) []) (AtomRow "" zeros3)))
            (bonded_atom_xyz self)).
Proof.
  apply (proj2 (init_key_error (two_atoms "C" "H" (0, 0, 1) (0, 0, 0) []))).
  cbn [two_atoms List.length]. lia.
Defined.

(** ** [distance] *)

Lemma F64_add_comm (a b : float64) : (a + b)%f64 = (b + a)%f64.
Proof. destruct a, b; try reflexivity. unfold F64.add. f_equal. ring. Qed.

Lemma F64_mul_comm (a b : float64) : (a * b)%f64 = (b * a)%f64.
Proof. destruct a, b; try reflexivity. unfold F64.mul. f_equal. ring. Qed.

Lemma F64_sq_sub_comm (a b : float64) : ((a - b) * (a - b))%f64 = ((b - a) * (b - a))%f64.
Proof.
  destruct a as [x | | |], b as [y | | |]; try reflexivity.
  unfold F64.sub, F64.neg, F64.add, F64.mul. f_equal. ring.
Qed.

(** X2: [distance] is symmetric on all arrays, the ones with infinite or NaN
    components included. *)
Theorem distance_sym (a b : vec3) : distance a b = distance b a.
Proof.
  unfold distance, vsub, vzip. cbn [v0 v1 v2].
  now rewrite (F64_sq_sub_comm (v0 a)), (F64_sq_sub_comm (v1 a)), (F64_sq_sub_comm (v2 a)).
Qed.

(** ** [find_angle] *)

(** [np.arccos]: NaN outside [[-1, 1]]. *)
Definition np_arccos (a : float64) : float64 :=
  match a with
  | Fin x => if Rlt_dec x (-1) then NaN else if Rlt_dec 1 x then NaN else Fin (acos x)
  | _ => NaN
  end.

(** [Complex.find_angle]; the literal [57.3] is the real 573/10. *)
Definition find_angle (v_1 v_2 : vec3) : float64 :=
  let cos_th :=
    ((v0 v_1 * v0 v_2 + v1 v_1 * v1 v_2 + v2 v_1 * v2 v_2) / (norm v_1 * norm v_2))%f64 in
  (np_arccos cos_th * Fin (573 / 10))%f64.

(** X4: [find_angle] does not depend on the order of its two arrays, whatever
    they hold. *)
Theorem find_angle_sym (a b : vec3) : find_angle a b = find_angle b a.
Proof.
  unfold find_angle.
  now rewrite (F64_mul_comm (v0 a)), (F64_mul_comm (v1 a)), (F64_mul_comm (v2 a)),
    (F64_mul_comm (norm a)).
Qed.

(** ** Where the centroid and the substituents lie *)
















(** ** [write_xyz] and [__main__] *)

Definition no_lf (s : text) : Prop := Forall (fun c => c <> LF) s.

Lemma splitlines_line (l r : text) :
  no_lf l -> splitlines (l ++ LF :: r) = (l ++ [LF]) :: splitlines r.
Proof.
  induction 1 as [| c l' Hc _ IH]; [reflexivity |].
  cbn [app splitlines]. apply Ascii.eqb_neq in Hc. rewrite Hc, IH. reflexivity.
Qed.

Lemma splitlines_last_line (l : text) :
  no_lf l -> l <> [] -> splitlines l = [l].
Proof.
  induction 1 as [| c l' Hc Hl IH]; [congruence |]. intros _.
  cbn [splitlines]. apply Ascii.eqb_neq in Hc. rewrite Hc.
  destruct l' as [| c' l'']; [reflexivity |].
  now rewrite IH by discriminate.
Qed.

Lemma strip_line_no_cr (l : text) : no_cr (strip_line l).
Proof.
  unfold strip_line, remove_char, no_cr. rewrite Forall_forall. intros c Hin.
  apply filter_In in Hin. destruct Hin as [Hin _].
  apply filter_In in Hin. destruct Hin as [_ Hc].
  apply negb_true_iff, Ascii.eqb_neq in Hc. exact Hc.
Qed.

Lemma no_cr_concat_map_last (ls : list text) :
  no_cr (List.concat ls) -> no_cr (List.concat (map_last strip_line ls)).
Proof.
  induction ls as [| l r IH]; [intros H; exact H |].
  destruct r as [| l' r'].
  - intros _. cbn [map_last List.concat]. rewrite app_nil_r. apply strip_line_no_cr.
  - change (map_last strip_line (l :: l' :: r')) with (l :: map_last strip_line (l' :: r')).
    change (List.concat (l :: l' :: r')) with (l ++ List.concat (l' :: r')).
    change (List.concat (l :: map_last strip_line (l' :: r')))
      with (l ++ List.concat (map_last strip_line (l' :: r'))).
    unfold no_cr in *. intros H. apply Forall_app in H. destruct H as [Hl Hr].
    apply Forall_app. split; [exact Hl | now apply IH].
Qed.

Lemma in_concat_map_last (c : ascii) (ls : list text) :
  c <> CR -> c <> LF ->
  In c (List.concat ls) -> In c (List.concat (map_last strip_line ls)).
Proof.
  intros Hcr Hlf. induction ls as [| l r IH]; [intros H; exact H |].
  destruct r as [| l' r'].
  - cbn [map_last List.concat]. rewrite !app_nil_r. intros Hin.
    unfold strip_line, remove_char. apply filter_In. split.
    + apply filter_In. split; [exact Hin |].
      apply negb_true_iff. now apply Ascii.eqb_neq.
    + apply negb_true_iff. now apply Ascii.eqb_neq.
  - change (map_last strip_line (l :: l' :: r')) with (l :: map_last strip_line (l' :: r')).
    change (List.concat (l :: l' :: r')) with (l ++ List.concat (l' :: r')).
    change (List.concat (l :: map_last strip_line (l' :: r')))
      with (l ++ List.concat (map_last strip_line (l' :: r'))).
    intros H. apply in_app_or in H. apply in_or_app.
    destruct H as [H | H]; [now left | right; now apply IH].
Qed.

Lemma loc_after_call (self self' : Complex) r :
  generate_substituent_vectors self = (r, self') ->
  loc (data_matrix self') (atom_to_be_functionalized_index self') =
    loc (data_matrix self) (atom_to_be_functionalized_index self) /\
  loc (data_matrix self') (bonded_atom_index self') =
    loc (data_matrix self) (bonded_atom_index self).
Proof.
  intros Hgen. pose proof (generate_substituent_vectors_state self) as Hs.
  rewrite Hgen in Hs. cbn [snd] in Hs. subst self'. split; reflexivity.
Qed.

Section Main.

Variable repr_float : float64 -> text.
Variable repr_label : string -> text.

Local Abbreviation row := (row_text repr_float repr_label).

Lemma row_text_nonempty (r : atom_row) : row r <> [].
Proof. unfold row_text. intros E. apply app_eq_nil in E. destruct E as [_ E]. discriminate. Qed.

(** X14: Reading back: when the output file was absent or empty and no rendered
    row holds a carriage return or a line feed, the lines of the file after
    [write_xyz] are the two header lines and then one line per atom, five in
    all, so a reader that skips two lines (as the constructor's does) finds
    exactly the five rows. *)
Theorem written_file_reads_back
  (a b : atom_row) (rest : list atom_row) (self self' : Complex)
  (l1 l2 l3 : string) (v_1 v_2 v_3 : vec3) (f : file) :
  init (a :: b :: rest) = Ok self ->
  generate_substituent_vectors self = ((v_1, v_2, v_3), self') ->
  Forall (fun r => no_cr (row r) /\ no_lf (row r))
    [a; b; AtomRow l1 v_1; AtomRow l2 v_2; AtomRow l3 v_3] ->
  f = None \/ f = Some [] ->
  exists out,
    write_xyz repr_float repr_label self f l1 l2 l3 = Ok (Some out, self') /\
    readlines (Some out) =
      Ok [["4"%char; LF]; [LF];
          row a ++ [LF]; row b ++ [LF];
          row (AtomRow l1 v_1) ++ [LF]; row (AtomRow l2 v_2) ++ [LF];
          row (AtomRow l3 v_3)] /\
    skipn 2 (splitlines (universal_newlines out)) =
      [row a ++ [LF]; row b ++ [LF];
       row (AtomRow l1 v_1) ++ [LF]; row (AtomRow l2 v_2) ++ [LF];
       row (AtomRow l3 v_3)].
Proof.
  intros Hinit Hgen Hrows Hf.
  destruct (init_rows a b rest self Hinit _ _ Hgen) as [Ha Hb].
  assert (Hcr : Forall (fun r => no_cr (row r))
                  [a; b; AtomRow l1 v_1; AtomRow l2 v_2; AtomRow l3 v_3]).
  { eapply Forall_impl; [| exact Hrows]. now intros r [H _]. }
  pose proof (write_xyz_content repr_float repr_label self self' v_1 v_2 v_3 a b
                l1 l2 l3 Hgen Ha Hb f Hcr) as Hw.
  assert (Hold : universal_newlines (old_text f) = []) by (destruct Hf as [-> | ->]; reflexivity).
  rewrite Hold in Hw. cbn [app header map join_lines] in Hw.
  eexists. split; [exact Hw |].
  inversion Hrows as [| ? ? [Ca La] H1]; subst.
  inversion H1 as [| ? ? [Cb Lb] H2]; subst.
  inversion H2 as [| ? ? [C1 L1] H3]; subst.
  inversion H3 as [| ? ? [C2 L2] H4]; subst.
  inversion H4 as [| ? ? [C3 L3] _]; subst.
  assert (Hsplit :
            splitlines
              (universal_newlines
                 ("4"%char :: LF :: LF :: row a ++ LF :: row b ++ LF ::
                  row (AtomRow l1 v_1) ++ LF :: row (AtomRow l2 v_2) ++ LF ::
                  row (AtomRow l3 v_3))) =
            [["4"%char; LF]; [LF]; row a ++ [LF]; row b ++ [LF];
             row (AtomRow l1 v_1) ++ [LF]; row (AtomRow l2 v_2) ++ [LF];
             row (AtomRow l3 v_3)]).
  { rewrite universal_newlines_no_cr.
    - cbn [splitlines Ascii.eqb Bool.eqb LF].
      rewrite !splitlines_line by assumption.
      now rewrite splitlines_last_line by (assumption || apply row_text_nonempty).
    - repeat (first [apply Forall_cons; [discriminate |] | apply Forall_app; split; [assumption |]]).
      assumption. }
  split; [unfold readlines; now rewrite Hsplit | now rewrite Hsplit].
Qed.

(** X15: A second [write_xyz] on the same object and file: the first call leaves
    no line feed after its last row, so the header [4] of the second block
    follows that row on the same line, and the second block holds the
    substituents of the second call. *)
Theorem write_xyz_twice
  (a b : atom_row) (rest : list atom_row) (self self1 self2 : Complex)
  (l1 l2 l3 : string) (v_1 v_2 v_3 w_1 w_2 w_3 : vec3) (f : file) :
  init (a :: b :: rest) = Ok self ->
  generate_substituent_vectors self = ((v_1, v_2, v_3), self1) ->
  generate_substituent_vectors self1 = ((w_1, w_2, w_3), self2) ->
  Forall (fun r => no_cr (row r))
    [a; b; AtomRow l1 v_1; AtomRow l2 v_2; AtomRow l3 v_3;
     AtomRow l1 w_1; AtomRow l2 w_2; AtomRow l3 w_3] ->
  f = None \/ f = Some [] ->
  exists out1,
    write_xyz repr_float repr_label self f l1 l2 l3 = Ok (Some out1, self1) /\
    write_xyz repr_float repr_label self1 (Some out1) l1 l2 l3 =
      Ok (Some ("4"%char :: LF :: LF ::
                row a ++ LF :: row b ++ LF ::
                row (AtomRow l1 v_1) ++ LF :: row (AtomRow l2 v_2) ++ LF ::
                row (AtomRow l3 v_3) ++
                "4"%char :: LF :: LF ::
                row a ++ LF :: row b ++ LF ::
                row (AtomRow l1 w_1) ++ LF :: row (AtomRow l2 w_2) ++ LF ::
                row (AtomRow l3 w_3)),
          self2).
Proof.
  intros Hinit Hgen1 Hgen2 Hrows Hf.
  destruct (init_rows a b rest self Hinit _ _ Hgen1) as [Ha Hb].
  destruct (loc_after_call self1 self2 _ Hgen2) as [Ea Eb].
  rewrite Ha in Ea. rewrite Hb in Eb.
  inversion Hrows as [| ? ? Ca H1]; subst.
  inversion H1 as [| ? ? Cb H2]; subst.
  inversion H2 as [| ? ? C1 H3]; subst.
  inversion H3 as [| ? ? C2 H4]; subst.
  inversion H4 as [| ? ? C3 H5]; subst.
  inversion H5 as [| ? ? D1 H6]; subst.
  inversion H6 as [| ? ? D2 H7]; subst.
  inversion H7 as [| ? ? D3 _]; subst.
  assert (Hr1 : Forall (fun r => no_cr (row r))
                  [a; b; AtomRow l1 v_1; AtomRow l2 v_2; AtomRow l3 v_3])
    by (repeat constructor; assumption).
  assert (Hr2 : Forall (fun r => no_cr (row r))
                  [a; b; AtomRow l1 w_1; AtomRow l2 w_2; AtomRow l3 w_3])
    by (repeat constructor; assumption).
  pose proof (write_xyz_content repr_float repr_label self self1 v_1 v_2 v_3 a b
                l1 l2 l3 Hgen1 Ha Hb f Hr1) as Hw1.
  assert (Hold : universal_newlines (old_text f) = []) by (destruct Hf as [-> | ->]; reflexivity).
  rewrite Hold in Hw1. cbn [app header map join_lines] in Hw1.
  eexists. split; [exact Hw1 |].
  rewrite (write_xyz_content repr_float repr_label self1 self2 w_1 w_2 w_3 a b
             l1 l2 l3 Hgen2 Ea Eb _ Hr2).
  cbn [old_text header map join_lines]. rewrite universal_newlines_no_cr.
  - do 3 f_equal. cbn [app]. do 3 f_equal.
    repeat (rewrite <- app_assoc; cbn [app]). reflexivity.
  - repeat (first [apply Forall_cons; [discriminate |] | apply Forall_app; split; [assumption |]]).
    assumption.
Qed.

End Main.

Ltac plain_rows :=
  unfold no_cr, no_lf, row_text, constant_repr, verbatim_label;
  cbn [atom xyz list_ascii_of_string app];
  repeat constructor; discriminate.

Lemma written_file_reads_back_witness :
  exists self v_1 v_2 v_3 self',
    init (two_atoms "C" "H" (0, 0, 1) (0, 0, 0) []) = Ok self /\
    generate_substituent_vectors self = ((v_1, v_2, v_3), self') /\
    exists out,
      write_xyz constant_repr verbatim_label self None "H" "H" "H" = Ok (Some out, self') /\
      readlines (Some out) =
        Ok [["4"%char; LF]; [LF];
            row_text constant_repr verbatim_label (AtomRow "C" (fin (0, 0, 1))) ++ [LF];
            row_text constant_repr verbatim_label (AtomRow "H" (fin (0, 0, 0))) ++ [LF];
            row_text constant_repr verbatim_label (AtomRow "H" v_1) ++ [LF];
            row_text constant_repr verbatim_label (AtomRow "H" v_2) ++ [LF];
            row_text constant_repr verbatim_label (AtomRow "H" v_3)] /\
      skipn 2 (splitlines (universal_newlines out)) =
        [row_text constant_repr verbatim_label (AtomRow "C" (fin (0, 0, 1))) ++ [LF];
         row_text constant_repr verbatim_label (AtomRow "H" (fin (0, 0, 0))) ++ [LF];
         row_text constant_repr verbatim_label (AtomRow "H" v_1) ++ [LF];
         row_text constant_repr verbatim_label (AtomRow "H" v_2) ++ [LF];
         row_text constant_repr verbatim_label (AtomRow "H" v_3)].
Proof.
  do 5 eexists. split; [apply init_two_atoms |]. split; [reflexivity |].
  apply (written_file_reads_back constant_repr verbatim_label
           (AtomRow "C" (fin (0, 0, 1))) (AtomRow "H" (fin (0, 0, 0))) []).
  - apply init_two_atoms.
  - reflexivity.
  - plain_rows.
  - left. reflexivity.
Defined.

Lemma write_xyz_twice_witness :
  exists self v_1 v_2 v_3 self1 w_1 w_2 w_3 self2,
    init (two_atoms "C" "H" (0, 0, 1) (0, 0, 0) []) = Ok self /\
    generate_substituent_vectors self = ((v_1, v_2, v_3), self1) /\
    generate_substituent_vectors self1 = ((w_1, w_2, w_3), self2) /\
    exists out1,
      write_xyz constant_repr verbatim_label self None "H" "H" "H" = Ok (Some out1, self1) /\
      write_xyz constant_repr verbatim_label self1 (Some out1) "H" "H" "H" =
        Ok (Some ("4"%char :: LF :: LF ::
                  row_text constant_repr verbatim_label (AtomRow "C" (fin (0, 0, 1))) ++ LF ::
                  row_text constant_repr verbatim_label (AtomRow "H" (fin (0, 0, 0))) ++ LF ::
                  row_text constant_repr verbatim_label (AtomRow "H" v_1) ++ LF ::
                  row_text constant_repr verbatim_label (AtomRow "H" v_2) ++ LF ::
                  row_text constant_repr verbatim_label (AtomRow "H" v_3) ++
                  "4"%char :: LF :: LF ::
                  row_text constant_repr verbatim_label (AtomRow "C" (fin (0, 0, 1))) ++ LF ::
                  row_text constant_repr verbatim_label (AtomRow "H" (fin (0, 0, 0))) ++ LF ::
                  row_text constant_repr verbatim_label (AtomRow "H" w_1) ++ LF ::
                  row_text constant_repr verbatim_label (AtomRow "H" w_2) ++ LF ::
                  row_text constant_repr verbatim_label (AtomRow "H" w_3)),
            self2).
Proof.
  do 9 eexists. split; [apply init_two_atoms |]. split; [reflexivity |].
  split; [reflexivity |].
  apply (write_xyz_twice constant_repr verbatim_label
           (AtomRow "C" (fin (0, 0, 1))) (AtomRow "H" (fin (0, 0, 0))) []).
  - apply init_two_atoms.
  - reflexivity.
  - reflexivity.
  - plain_rows.
  - left. reflexivity.
Defined.


(** ** How [write_xyz] and the script end *)

(** X12: [write_xyz] on an object the constructor returned, whatever the
    labels and however the cells are rendered, on a path that names nothing
    or a file of any content: when that content does not decode, the call
    raises [UnicodeDecodeError] and leaves the content followed by the
    header and the rows; otherwise (the path names nothing, or the content
    decodes) it returns and leaves a text that is not empty and holds no
    carriage return.  Either way the object is as one call of
    [generate_substituent_vectors] leaves it. *)
Theorem write_xyz_outcome
  (repr_float : float64 -> text) (repr_label : string -> text)
  (table : list atom_row) (self : Complex) (f : disk_file) (l1 l2 l3 : string) :
  init table = Ok self ->
  exists out outcome,
    write_xyz_on_disk repr_float repr_label self f l1 l2 l3 =
      (Some out, snd (generate_substituent_vectors self), outcome) /\
    (decode (old_bytes f) = Raise UnicodeDecodeError ->
     outcome = Raise UnicodeDecodeError /\
     exists csv, out = old_bytes f ++ encode (header ++ csv)) /\
    ((exists s, decode (old_bytes f) = Ok s) ->
     outcome = Ok tt /\ exists t, out = encode t /\ t <> [] /\ no_cr t) /\
    ((exists s, decode (old_bytes f) = Ok s) \/
     decode (old_bytes f) = Raise UnicodeDecodeError).
Proof.
  intros Hinit.
  destruct table as [| a [| b rest]]; [discriminate | discriminate |].
  destruct (generate_substituent_vectors self) as [[[v_1 v_2] v_3] self'] eqn:Hgen.
  destruct (init_rows a b rest self Hinit _ _ Hgen) as [Ha Hb]. cbn [snd].
  destruct (decode_cases (old_bytes f)) as [(s & Hs & _) | Hs].
  - do 2 eexists. split; [| split; [| split]].
    + apply (write_xyz_on_disk_decodable repr_float repr_label self self' v_1 v_2 v_3 a b
               l1 l2 l3 Hgen Ha Hb f s Hs).
    + intros E. rewrite Hs in E. discriminate E.
    + intros _. split; [reflexivity |]. eexists. split; [reflexivity |]. split.
      * assert (Hin : In "4"%char
                        (List.concat
                           (map_last strip_line
                              (splitlines
                                 (universal_newlines
                                    (s ++ header
                                     ++ to_csv repr_float repr_label
                                          [a; b; AtomRow l1 v_1; AtomRow l2 v_2;
                                           AtomRow l3 v_3])))))).
        { apply in_concat_map_last; [discriminate | discriminate |].
          rewrite concat_splitlines, universal_newlines_app by (cbn; discriminate).
          apply in_or_app. right.
          cbn [header app universal_newlines Ascii.eqb Bool.eqb CR]. now left. }
        intros E. rewrite E in Hin. exact Hin.
      * apply no_cr_concat_map_last. rewrite concat_splitlines.
        apply universal_newlines_clean.
    + left. now exists s.
  - do 2 eexists. split; [| split; [| split]].
    + apply (write_xyz_on_disk_undecodable repr_float repr_label self self' v_1 v_2 v_3 a b
               l1 l2 l3 Hgen Ha Hb f Hs).
    + intros _. split; [reflexivity |]. now eexists.
    + intros (s & E). rewrite Hs in E. discriminate E.
    + now right.
Qed.

Lemma write_xyz_outcome_witness :
  exists self out outcome,
    init (two_atoms "C" "H" (0, 0, 1) (0, 0, 0) []) = Ok self /\
    write_xyz_on_disk constant_repr verbatim_label self (Some [Char "x"; Undecodable])
      "H" "H" "H" = (Some out, snd (generate_substituent_vectors self), outcome) /\
    outcome = Raise UnicodeDecodeError.
Proof.
  eexists.
  destruct (write_xyz_outcome constant_repr verbatim_label
              (two_atoms "C" "H" (0, 0, 1) (0, 0, 0) []) _
              (Some [Char "x"; Undecodable]) "H" "H" "H"
              (init_two_atoms "C" "H" (0, 0, 1) (0, 0, 0) []))
    as (out & outcome & Hw & Hbad & _).
  exists out, outcome. split; [apply init_two_atoms |]. split; [exact Hw |].
  now apply Hbad.
Defined.

(** X13: the script, once [pd.read_table] has returned the table: it raises
    [KeyError] and leaves [test.xyz] as it was exactly when the table has
    fewer than two rows; on any other table it raises [UnicodeDecodeError]
    exactly when [test.xyz] holds content that does not decode, returns
    otherwise, and either way leaves a file that is there and not empty. *)
Theorem main_outcome
  (repr_float : float64 -> text) (repr_label : string -> text)
  (table : list atom_row) (test_xyz : disk_file) :
  exists f outcome,
    main repr_float repr_label table test_xyz = (f, outcome) /\
    (outcome = Raise KeyError <-> (List.length table < 2)%nat) /\
    ((List.length table < 2)%nat -> f = test_xyz) /\
    ((2 <= List.length table)%nat ->
     (outcome = Raise UnicodeDecodeError <->
      decode (old_bytes test_xyz) = Raise UnicodeDecodeError) /\
     (outcome = Ok tt <-> exists s, decode (old_bytes test_xyz) = Ok s) /\
     exists out, f = Some out /\ out <> []).
Proof.
  unfold main.
  destruct (init table) as [self | e] eqn:Hinit.
  - destruct (write_xyz_outcome repr_float repr_label table self test_xyz "H" "H" "H" Hinit)
      as (out & outcome & Hw & Hbad & Hgood & Hcases).
    rewrite Hw. exists (Some out), outcome. split; [reflexivity |].
    assert (Hlen : (2 <= List.length table)%nat).
    { destruct table as [| a [| b rest]]; [discriminate | discriminate |].
      cbn [List.length]. lia. }
    split; [| split; [lia |]].
    + split; [| lia]. intros ->.
      destruct Hcases as [Hs | Hs]; [destruct (Hgood Hs) as [E _] | destruct (Hbad Hs) as [E _]];
        discriminate E.
    + intros _. split; [| split].
      * split; [| now intros Hs; apply Hbad]. intros ->.
        destruct Hcases as [Hs | Hs]; [| exact Hs].
        destruct (Hgood Hs) as [E _]. discriminate E.
      * split; [| now intros Hs; apply Hgood]. intros ->.
        destruct Hcases as [Hs | Hs]; [exact Hs |].
        destruct (Hbad Hs) as [E _]. discriminate E.
      * exists out. split; [reflexivity |].
        destruct Hcases as [Hs | Hs].
        -- destruct (Hgood Hs) as (_ & t & -> & Ht & _).
           destruct t; [now elim Ht | discriminate].
        -- destruct (Hbad Hs) as (_ & csv & ->).
           intros E. apply app_eq_nil in E. destruct E as [_ E]. discriminate E.
  - assert (Hlen : (List.length table < 2)%nat /\ e = KeyError).
    { destruct table as [| a [| b rest]]; cbn in Hinit; try discriminate;
        injection Hinit as <-; cbn [List.length]; split; (lia || reflexivity). }
    destruct Hlen as [Hlen ->]. exists test_xyz, (Raise KeyError).
    split; [reflexivity |]. split; [tauto |]. split; [reflexivity |]. lia.
Qed.

Lemma main_outcome_witness :
  exists f outcome,
    main constant_repr verbatim_label [AtomRow "C" (fin (0, 0, 1))] (Some [Undecodable]) =
      (f, outcome) /\
    outcome = Raise KeyError /\ f = Some [Undecodable].
Proof.
  destruct (main_outcome constant_repr verbatim_label [AtomRow "C" (fin (0, 0, 1))]
              (Some [Undecodable])) as (f & outcome & Hm & Hkey & Hf & _).
  exists f, outcome. split; [exact Hm |].
  split; [apply Hkey | apply Hf]; cbn [List.length]; lia.
Defined.
